(** * nyse-trade-halts: the feed parser, the snapshot differ and the poll loop

    A shallow embedding of the three revisions of [main.go] kept in the
    repository history:

    - [V1]: [src/main.go], records of eight strings, the watch loop keeps
      a set of symbols;
    - the shared part of the two later revisions ([src/unnamed/part_001]):
      [TradeHalt] with two [time.Time] fields, [tryUnquote],
      [parseTradeHalts], [displayHaltsTable] and the body of the diffing
      loop of [WatchCmd.Run], textually identical in both;
    - [V2]: lines 1-215 of [part_001], [fetchTradeHalts] without the
      Last-Modified header;
    - [V3]: lines 217-446 of [part_001], [fetchTradeHalts] reads and
      parses the Last-Modified header.

    Go's standard library is not part of the repository: the calls into
    [time] and [strconv] are fields of the class [GoRuntime]; what
    [http.Get] and [csv.Reader.ReadAll] hand back is input data. *)

From Stdlib Require Import Ascii String.
From stdpp Require Import gmap strings pretty list fin_maps.


(** ** Go values *)

(** An [error] is represented by its message; [nil] is [None]. *)
Definition error : Type := string.

(** [fmt.Errorf(prefix + ": %w", err)]. *)
Definition Errorf (prefix : string) (err : error) : error :=
  prefix +:+ ": " +:+ err.

(** How a Go function call ends: with its results, with a non-nil error, or
    by a panic that unwinds the stack. *)
Inductive outcome (A : Type) : Type :=
| Return (a : A)
| Failure (err : error)
| Panic (msg : string).
Arguments Return {A} a.
Arguments Failure {A} err.
Arguments Panic {A} msg.

(** Lines handed to [log.Printf], oldest first. *)
Definition logbook : Type := list string.

(** What [csv.NewReader(r).ReadAll()] returns on the response body. *)
Inductive ReadAllResult : Type :=
| ReadAllErr (err : error)
| ReadAllOk (records : list (list string)).

(** [record[k]] (the callers check [len(record)] first). *)
Definition field (record : list string) (k : nat) : string := nth k record "".

Definition tab : string := String (ascii_of_nat 9) "".
Definition newline : string := String (ascii_of_nat 10) "".
Definition bellSound : string := String (ascii_of_nat 7) "".
Definition escape : string := String (ascii_of_nat 27) "".

Definition StatusOK : Z := 200.

(** Layout constants of package [time]. *)
Definition layoutDateTime : string := "2006-01-02 15:04:05".
Definition RFC1123 : string := "Mon, 02 Jan 2006 15:04:05 MST".
Definition RFC1123Z : string := "Mon, 02 Jan 2006 15:04:05 -0700".

(** What is written to standard output: plain text, or text flushed through
    a [tabwriter.Writer] created with the given padding. *)
Inductive output : Type :=
| Stdout (text : string)
| Tabwriter (padding : nat) (text : string).

(** The part of Go's [time] and [strconv] packages the program calls.
    A pair [(v, Some e)] is a call that returned a non-nil error.
    [parse_error_zero]: every error return of [time.Parse] and
    [time.ParseInLocation] is [return Time{}, err]. *)
Class GoRuntime : Type := {
  Time : Type;
  Location : Type;
  Time_eq_dec :: EqDecision Time;
  (** [time.Time{}], the value of [var t time.Time] *)
  zeroTime : Time;
  IsZero : Time → bool;
  (** the location [init] stored after [time.LoadLocation("America/New_York")] *)
  nyseLocation : Location;
  ParseInLocation : string → string → Location → Time * option error;
  Parse : string → string → Time * option error;
  (** [t.Format(layout)] *)
  Format : Time → string → string;
  (** [t.Local()] *)
  Local : Time → Time;
  (** [strconv.Unquote] *)
  Unquote : string → string * option error;
  IsZero_zeroTime : IsZero zeroTime = true;
  ParseInLocation_error_zero :
    ∀ layout value loc t e, ParseInLocation layout value loc = (t, Some e) → t = zeroTime;
  Parse_error_zero :
    ∀ layout value t e, Parse layout value = (t, Some e) → t = zeroTime
}.

(** What [http.Get] returns: an error, or a response with its status code,
    its [Last-Modified] header (if any) and the result of reading its body
    as CSV. *)
Record Response : Type := {
  StatusCode : Z;
  LastModified : option string;
  Body : ReadAllResult
}.

Inductive GetResult : Type :=
| GetErr (err : error)
| GetOk (resp : Response).

(** [resp.Header.Get("Last-Modified")]: the empty string when absent. *)
Definition Header_Get_LastModified (resp : Response) : string :=
  default "" (LastModified resp).

(** [clearScreen], identical in the three revisions. *)
Definition clearScreen : list output :=
  [Stdout (escape +:+ "[2J" +:+ escape +:+ "[H")].

(** ** [src/main.go]: the revision with string fields and a symbol set *)
Module V1.

Record TradeHalt : Type := {
  HaltDate : string;
  HaltTime : string;
  Symbol : string;
  Name : string;
  Exchange : string;
  Reason : string;
  ResumeDate : string;
  NYSETime : string
}.

(** The [TradeHalt] literal of lines 140-149. *)
Definition haltOf (record : list string) : TradeHalt :=
  {| HaltDate := field record 0;
     HaltTime := field record 1;
     Symbol := field record 2;
     Name := field record 3;
     Exchange := field record 4;
     Reason := field record 5;
     ResumeDate := field record 6;
     NYSETime := field record 7 |}.

(** The loop [for i, record := range records] of [fetchTradeHalts]
    (lines 133-150), started at index [i] with the slice built so far. *)
Fixpoint fetchLoop (i : nat) (records : list (list string)) (halts : list TradeHalt)
  : outcome (list TradeHalt) :=
  match records with
  | [] => Return halts
  | record :: rest =>
      if (i =? 0)%nat then fetchLoop (S i) rest halts
      else if negb (length record =? 8)%nat then Panic "malformed record"
      else fetchLoop (S i) rest (halts ++ [haltOf record])
  end.

(** [fetchTradeHalts] (lines 110-153). *)
Definition fetchTradeHalts (get : GetResult) : outcome (list TradeHalt) :=
  match get with
  | GetErr err => Failure (Errorf "failed to fetch trade halts" err)
  | GetOk resp =>
      if negb (StatusCode resp =? StatusOK)%Z
      then Failure ("bad status code: " +:+ pretty (StatusCode resp))
      else match Body resp with
           | ReadAllErr err => Failure (Errorf "failed to read csv" err)
           | ReadAllOk records =>
               if (length records <? 2)%nat then Return []
               else fetchLoop 0 records []
           end
  end.

(** One row of [displayHaltsTable] (lines 88-90). *)
Definition displayRow (halt : TradeHalt) : string :=
  Symbol halt +:+ tab +:+ Name halt +:+ tab +:+ Exchange halt +:+ tab +:+
  Reason halt +:+ tab +:+ HaltDate halt +:+ tab +:+ HaltTime halt +:+ tab +:+
  ResumeDate halt +:+ newline.

Definition displayHaltsTable (halts : list TradeHalt) : list output :=
  [Tabwriter 2
     ("SYMBOL" +:+ tab +:+ "NAME" +:+ tab +:+ "EXCHANGE" +:+ tab +:+ "REASON" +:+ tab +:+
      "HALT DATE" +:+ tab +:+ "HALT TIME" +:+ tab +:+ "RESUME DATE" +:+ newline +:+
      "------" +:+ tab +:+ "----" +:+ tab +:+ "--------" +:+ tab +:+ "------" +:+ tab +:+
      "---------" +:+ tab +:+ "---------" +:+ tab +:+ "-----------" +:+ newline +:+
      foldr (λ halt rest, displayRow halt +:+ rest) "" halts)].

(** The body of [for _, halt := range currentHalts] in [WatchCmd.Run]
    (lines 63-68) on the pair [(lastHalts, newHalts)]. *)
Definition diffStep (st : gset string * bool) (halt : TradeHalt) : gset string * bool :=
  let '(lastHalts, newHalts) := st in
  if decide (Symbol halt ∈ lastHalts) then (lastHalts, newHalts)
  else ({[Symbol halt]} ∪ lastHalts, true).

(** Lines 61-68: [newHalts := false], then the loop. *)
Definition diffHalts (lastHalts : gset string) (currentHalts : list TradeHalt)
  : gset string * bool :=
  foldl diffStep (lastHalts, false) currentHalts.

(** Lines 47-50: the set built from the initial fetch. *)
Definition initialSet (initialHalts : list TradeHalt) : gset string :=
  foldl (λ lastHalts halt, {[Symbol halt]} ∪ lastHalts) ∅ initialHalts.

(** [FetchCmd.Run] (lines 27-35): the wrapped error, or the table. *)
Definition FetchCmd_Run (get : GetResult) : outcome (list output) :=
  match fetchTradeHalts get with
  | Failure err => Failure (Errorf "failed to fetch trade halts" err)
  | Panic msg => Panic msg
  | Return halts => Return (displayHaltsTable halts)
  end.

(** How one iteration of the watch loop of [src/main.go] ends. *)
Inductive cycle : Type :=
| Continue (lastHalts : gset string) (out : list output)
| Fatal (err : error)
| Crash (msg : string).

Section Watch.
Context `{!GoRuntime}.

(** The [Printf] of line 76; [now] is what [time.Now()] returns. *)
Definition updatedAt (now : Time) : list output :=
  [Stdout (newline +:+ "Updated @ " +:+ Format now RFC1123Z +:+ newline)].

(** The start of [WatchCmd.Run] (lines 42-53): the error it returns, or the
    set it builds and what it writes before the loop. *)
Definition WatchCmd_Run_start (get : GetResult) : outcome (gset string * list output) :=
  match fetchTradeHalts get with
  | Failure err => Failure (Errorf "failed to fetch initial trade halts" err)
  | Panic msg => Panic msg
  | Return initialHalts =>
      Return (initialSet initialHalts, clearScreen ++ displayHaltsTable initialHalts)
  end.

(** One iteration of [for range time.Tick(w.Interval)] (lines 55-77). *)
Definition watchCycle (lastHalts : gset string) (get : GetResult) (now : Time) : cycle :=
  match fetchTradeHalts get with
  | Failure err => Fatal err
  | Panic msg => Crash msg
  | Return currentHalts =>
      let '(lastHalts, newHalts) := diffHalts lastHalts currentHalts in
      Continue lastHalts
        ((if newHalts then [Stdout bellSound] else []) ++ clearScreen
         ++ displayHaltsTable currentHalts ++ updatedAt now)
  end.

End Watch.

End V1.

(** ** The part shared by the two later revisions ([src/unnamed/part_001]) *)

(** [type TradeHalt struct] (lines 138-145 and 359-366). *)
Record TradeHalt `{!GoRuntime} : Type := {
  Symbol : string;
  Name : string;
  Exchange : string;
  Reason : string;
  HaltDateTime : Time;
  ResumeDateTime : Time
}.

Section Shared.
Context `{!GoRuntime}.

(** [tryUnquote] (lines 130-136 and 351-357). *)
Definition tryUnquote (s : string) : string :=
  let '(unquoted, err) := Unquote s in
  match err with
  | Some _ => s
  | None => unquoted
  end.

(** Lines 168-174 and 389-395: the value of [haltDateTime] for a record
    and the line logged, if any. *)
Definition parseHaltDateTime (record : list string) : Time * logbook :=
  if decide (field record 0 ≠ "" ∧ field record 1 ≠ "") then
    let '(haltDateTime, err) :=
      ParseInLocation layoutDateTime
        (field record 0 +:+ " " +:+ field record 1) nyseLocation in
    (haltDateTime,
     match err with
     | Some err =>
         ["failed to parse halt datetime for " +:+ field record 2 +:+ ": " +:+ err]
     | None => []
     end)
  else (zeroTime, []).

(** Lines 176-182 and 397-403: the same for [resumeDateTime]. *)
Definition parseResumeDateTime (record : list string) : Time * logbook :=
  if decide (field record 6 ≠ "" ∧ field record 7 ≠ "") then
    let '(resumeDateTime, err) :=
      ParseInLocation layoutDateTime
        (field record 6 +:+ " " +:+ field record 7) nyseLocation in
    (resumeDateTime,
     match err with
     | Some err =>
         ["failed to parse resume datetime for " +:+ field record 2 +:+ ": " +:+ err]
     | None => []
     end)
  else (zeroTime, []).

(** The body of the loop of [parseTradeHalts] for a record that passed the
    field-count check (lines 168-191 and 389-412): the [TradeHalt] it
    appends and the lines it logs. *)
Definition parseRow (record : list string) : TradeHalt * logbook :=
  let '(haltDateTime, haltLog) := parseHaltDateTime record in
  let '(resumeDateTime, resumeLog) := parseResumeDateTime record in
  ({| Symbol := field record 2;
      Name := tryUnquote (field record 3);
      Exchange := field record 4;
      Reason := field record 5;
      HaltDateTime := haltDateTime;
      ResumeDateTime := resumeDateTime |},
   haltLog ++ resumeLog).

(** The loop [for i, record := range records] of [parseTradeHalts]
    (lines 160-192 and 381-413), started at index [i] with the slice and
    the log written so far. *)
Fixpoint parseLoop (i : nat) (records : list (list string))
    (halts : list TradeHalt) (logs : logbook) : logbook * outcome (list TradeHalt) :=
  match records with
  | [] => (logs, Return halts)
  | record :: rest =>
      if (i =? 0)%nat then parseLoop (S i) rest halts logs
      else if negb (length record =? 8)%nat then (logs, Panic "malformed record")
      else
        let '(halt, lines) := parseRow record in
        parseLoop (S i) rest (halts ++ [halt]) (logs ++ lines)
  end.

(** [parseTradeHalts] (lines 147-195 and 368-416); the argument is what
    [csvReader.ReadAll()] returned on the reader. *)
Definition parseTradeHalts (read : ReadAllResult) : logbook * outcome (list TradeHalt) :=
  match read with
  | ReadAllErr err => ([], Failure (Errorf "failed to read csv" err))
  | ReadAllOk records =>
      if (length records <? 2)%nat then ([], Return [])
      else parseLoop 0 records [] []
  end.

(** [haltTimeLocal] and [resumeTimeLocal] of [displayHaltsTable]
    (lines 111-118 and 330-338). *)
Definition haltTimeLocal (halt : TradeHalt) : string :=
  if negb (IsZero (HaltDateTime halt))
  then Format (Local (HaltDateTime halt)) layoutDateTime
  else "".

Definition resumeTimeLocal (halt : TradeHalt) : string :=
  if negb (IsZero (ResumeDateTime halt))
  then Format (Local (ResumeDateTime halt)) layoutDateTime
  else "".

(** The [Fprintf] of one row (lines 119-121 and 340-342). *)
Definition displayRow (halt : TradeHalt) : string :=
  Symbol halt +:+ tab +:+ Name halt +:+ tab +:+ Exchange halt +:+ tab +:+
  Reason halt +:+ tab +:+ haltTimeLocal halt +:+ tab +:+ resumeTimeLocal halt +:+ newline.

(** [displayHaltsTable] (lines 105-124 and 324-345). *)
Definition displayHaltsTable (halts : list TradeHalt) : list output :=
  [Tabwriter 2
     ("SYMBOL" +:+ tab +:+ "NAME" +:+ tab +:+ "EXCHANGE" +:+ tab +:+ "REASON" +:+ tab +:+
      "HALT TIME (LOCAL)" +:+ tab +:+ "RESUME TIME (LOCAL)" +:+ newline +:+
      "------" +:+ tab +:+ "----" +:+ tab +:+ "--------" +:+ tab +:+ "------" +:+ tab +:+
      "-----------------" +:+ tab +:+ "-------------------" +:+ newline +:+
      foldr (λ halt rest, displayRow halt +:+ rest) "" halts)].

(** The body of [for _, halt := range currentHalts] in [WatchCmd.Run]
    (lines 76-91 and 293-308) on the pair [(prevHalts, haltsUpdated)]. *)
Definition diffStep (st : gmap string TradeHalt * bool) (halt : TradeHalt)
  : gmap string TradeHalt * bool :=
  let '(prevHalts, haltsUpdated) := st in
  match prevHalts !! Symbol halt with
  | Some prevHalt =>
      if decide (ResumeDateTime prevHalt ≠ ResumeDateTime halt)
      then (<[Symbol halt := halt]> prevHalts, true)
      else (prevHalts, haltsUpdated)
  | None => (<[Symbol halt := halt]> prevHalts, true)
  end.

(** Lines 74-91 and 291-308: [haltsUpdated := false], then the loop. *)
Definition diffHalts (prevHalts : gmap string TradeHalt) (currentHalts : list TradeHalt)
  : gmap string TradeHalt * bool :=
  foldl diffStep (prevHalts, false) currentHalts.

(** The bell of lines 93-95 and 310-312. *)
Definition bell (haltsUpdated : bool) : list output :=
  if haltsUpdated then [Stdout bellSound] else [].

End Shared.

(** How one iteration of the watch loop ends: the loop goes on with the new
    [prevHalts] after writing [out]; [log.Fatal(err)] ends the process; or a
    panic does. *)
Inductive cycle `{!GoRuntime} : Type :=
| Continue (prevHalts : gmap string TradeHalt) (out : list output)
| Fatal (err : error)
| Crash (msg : string).

(** ** Lines 1-215 of [part_001]: no Last-Modified header *)
Module V2.
Section V2.
Context `{!GoRuntime}.

(** [fetchTradeHalts] (lines 197-209). *)
Definition fetchTradeHalts (get : GetResult) : logbook * outcome (list TradeHalt) :=
  match get with
  | GetErr err => ([], Failure (Errorf "failed to fetch trade halts" err))
  | GetOk resp =>
      if negb (StatusCode resp =? StatusOK)%Z
      then ([], Failure ("bad status code: " +:+ pretty (StatusCode resp)))
      else parseTradeHalts (Body resp)
  end.

Definition updatedAt (now : Time) : list output :=
  [Stdout (newline +:+ "Updated @ " +:+ Format now RFC1123Z +:+ newline)].

(** Lines 59-62: the map built from the initial fetch. *)
Definition initialMap (initialHalts : list TradeHalt) : gmap string TradeHalt :=
  foldl (λ prevHalts halt, <[Symbol halt := halt]> prevHalts) ∅ initialHalts.

(** One iteration of [for range time.Tick(w.Interval)] (lines 68-100);
    [now] is what [time.Now()] returns. *)
Definition watchCycle (prevHalts : gmap string TradeHalt) (get : GetResult) (now : Time)
  : logbook * cycle :=
  match fetchTradeHalts get with
  | (logs, Failure err) => (logs, Fatal err)
  | (logs, Panic msg) => (logs, Crash msg)
  | (logs, Return currentHalts) =>
      let '(prevHalts, haltsUpdated) := diffHalts prevHalts currentHalts in
      (logs, Continue prevHalts
               (bell haltsUpdated ++ clearScreen ++ displayHaltsTable currentHalts
                ++ updatedAt now))
  end.

(** [FetchCmd.Run] (lines 39-47): the wrapped error, or the table. *)
Definition FetchCmd_Run (get : GetResult) : logbook * outcome (list output) :=
  match fetchTradeHalts get with
  | (logs, Failure err) => (logs, Failure (Errorf "failed to fetch trade halts" err))
  | (logs, Panic msg) => (logs, Panic msg)
  | (logs, Return halts) => (logs, Return (displayHaltsTable halts))
  end.

(** The start of [WatchCmd.Run] (lines 54-66): the error it returns, or the
    map it builds and what it writes before the loop. *)
Definition WatchCmd_Run_start (get : GetResult) (now : Time)
  : logbook * outcome (gmap string TradeHalt * list output) :=
  match fetchTradeHalts get with
  | (logs, Failure err) =>
      (logs, Failure (Errorf "failed to fetch initial trade halts" err))
  | (logs, Panic msg) => (logs, Panic msg)
  | (logs, Return initialHalts) =>
      (logs, Return (initialMap initialHalts,
                     clearScreen ++ displayHaltsTable initialHalts ++ updatedAt now))
  end.

End V2.
End V2.

(** ** Lines 217-446 of [part_001]: the Last-Modified header is parsed *)
Module V3.
Section V3.
Context `{!GoRuntime}.

(** [fetchTradeHalts] (lines 418-440). *)
Definition fetchTradeHalts (get : GetResult) : logbook * outcome (list TradeHalt * Time) :=
  match get with
  | GetErr err => ([], Failure (Errorf "failed to fetch trade halts" err))
  | GetOk resp =>
      if negb (StatusCode resp =? StatusOK)%Z
      then ([], Failure ("bad status code: " +:+ pretty (StatusCode resp)))
      else
        match parseTradeHalts (Body resp) with
        | (logs, Failure err) => (logs, Failure (Errorf "failed to parse trade halts" err))
        | (logs, Panic msg) => (logs, Panic msg)
        | (logs, Return halts) =>
            let '(lastModified, err) := Parse RFC1123 (Header_Get_LastModified resp) in
            match err with
            | Some err => (logs, Failure (Errorf "failed to parse last modified header" err))
            | None => (logs, Return (halts, lastModified))
            end
        end
  end.

(** [FetchCmd.Run] (lines 254-262): the error, or the table. *)
Definition FetchCmd_Run (get : GetResult) : logbook * outcome (list output) :=
  match fetchTradeHalts get with
  | (logs, Failure err) => (logs, Failure (Errorf "failed to fetch trade halts" err))
  | (logs, Panic msg) => (logs, Panic msg)
  | (logs, Return (halts, _)) => (logs, Return (displayHaltsTable halts))
  end.

(** [displayFunc] of [WatchCmd.Run] (lines 269-278). *)
Definition displayFunc (halts : list TradeHalt) (lastModified now : Time) : list output :=
  clearScreen ++ displayHaltsTable halts ++ [Stdout newline] ++
  [Tabwriter 1
     ("Last fetch" +:+ tab +:+ "@ " +:+ Format now RFC1123Z +:+ newline +:+
      "Last updated" +:+ tab +:+ "@ " +:+ Format (Local lastModified) RFC1123Z +:+ newline)].

(** One iteration of the [for] loop of [WatchCmd.Run] (lines 285-319), up
    to the wait on the ticker; [now] is what [time.Now()] returns. *)
Definition watchCycle (prevHalts : gmap string TradeHalt) (get : GetResult) (now : Time)
  : logbook * cycle :=
  match fetchTradeHalts get with
  | (logs, Failure err) => (logs, Fatal err)
  | (logs, Panic msg) => (logs, Crash msg)
  | (logs, Return (currentHalts, lastModified)) =>
      let '(prevHalts, haltsUpdated) := diffHalts prevHalts currentHalts in
      (logs, Continue prevHalts
               (bell haltsUpdated ++ displayFunc currentHalts lastModified now))
  end.

(** The loop of [WatchCmd.Run] over the fetches of its first iterations,
    from [prevHalts]: the map it holds when the last of them is done, or
    [None] when the process ended on the way. *)
Fixpoint watchLoop (prevHalts : gmap string TradeHalt) (ticks : list (GetResult * Time))
  : option (gmap string TradeHalt) :=
  match ticks with
  | [] => Some prevHalts
  | (get, now) :: ticks =>
      match watchCycle prevHalts get now with
      | (_, Continue prevHalts _) => watchLoop prevHalts ticks
      | _ => None
      end
  end.

End V3.
End V3.

(** ** A runtime to run the model on concrete feeds

    A host whose local zone and exchange zone are both UTC. It covers the
    layouts the program uses; [Unquote] covers the quoted strings without
    backslash escapes (it reports a syntax error on the others, which the
    library would decode). *)
Module Reference.

Record Civil : Type := {
  year : nat; month : nat; day : nat;
  hour : nat; minute : nat; second : nat
}.

#[global] Instance Civil_eq_dec : EqDecision Civil.
Proof. solve_decision. Defined.

Definition zero : Civil :=
  {| year := 1; month := 1; day := 1; hour := 0; minute := 0; second := 0 |}.

Definition digit (c : ascii) : option nat :=
  let n := nat_of_ascii c in
  if (48 <=? n)%nat && (n <=? 57)%nat then Some (n - 48)%nat else None.

Fixpoint digits (s : string) (acc : nat) : option nat :=
  match s with
  | EmptyString => Some acc
  | String c s => d ← digit c; digits s (10 * acc + d)%nat
  end.

(** The number written with exactly [len] digits at offset [pos]. *)
Definition number (s : string) (pos len : nat) : option nat :=
  let t := substring pos len s in
  if decide (String.length t = len ∧ len ≠ 0%nat) then digits t 0 else None.

Definition leap (y : nat) : bool :=
  ((y mod 4 =? 0) && negb (y mod 100 =? 0) || (y mod 400 =? 0))%nat.

Definition daysIn (y m : nat) : nat :=
  match m with
  | 2 => if leap y then 29 else 28
  | 4 | 6 | 9 | 11 => 30
  | _ => 31
  end%nat.

Definition civil (y mo d h mi s : nat) : option Civil :=
  if decide (1 ≤ mo ≤ 12 ∧ 1 ≤ d ≤ daysIn y mo ∧ h < 24 ∧ mi < 60 ∧ s < 60)%nat
  then Some {| year := y; month := mo; day := d; hour := h; minute := mi; second := s |}
  else None.

Definition monthNames : list string :=
  ["Jan"; "Feb"; "Mar"; "Apr"; "May"; "Jun"; "Jul"; "Aug"; "Sep"; "Oct"; "Nov"; "Dec"].
Definition dayNames : list string :=
  ["Mon"; "Tue"; "Wed"; "Thu"; "Fri"; "Sat"; "Sun"].

Definition indexOf (x : string) (l : list string) : option nat :=
  fst <$> list_find (λ y, y = x) l.

(** ["2006-01-02 15:04:05"] *)
Definition parseDateTime (v : string) : option Civil :=
  if decide (String.length v = 19%nat ∧ substring 4 1 v = "-" ∧ substring 7 1 v = "-" ∧
             substring 10 1 v = " " ∧ substring 13 1 v = ":" ∧ substring 16 1 v = ":")
  then y ← number v 0 4; mo ← number v 5 2; d ← number v 8 2;
       h ← number v 11 2; mi ← number v 14 2; s ← number v 17 2;
       civil y mo d h mi s
  else None.

(** ["Mon, 02 Jan 2006 15:04:05 MST"] *)
Definition parseRFC1123 (v : string) : option Civil :=
  if decide (String.length v = 29%nat ∧ substring 3 2 v = ", " ∧ substring 7 1 v = " " ∧
             substring 11 1 v = " " ∧ substring 16 1 v = " " ∧ substring 19 1 v = ":" ∧
             substring 22 1 v = ":" ∧ substring 25 1 v = " ")
  then _ ← indexOf (substring 0 3 v) dayNames;
       d ← number v 5 2; mo ← indexOf (substring 8 3 v) monthNames;
       y ← number v 12 4; h ← number v 17 2; mi ← number v 20 2; s ← number v 23 2;
       civil y (S mo) d h mi s
  else None.

Definition parseError (layout value : string) : error :=
  "parsing time " +:+ value +:+ " as " +:+ layout +:+ ": cannot parse".

Definition parse (layout value : string) : Civil * option error :=
  let parsed :=
    if decide (layout = layoutDateTime) then parseDateTime value
    else if decide (layout = RFC1123) then parseRFC1123 value
    else None in
  match parsed with
  | Some t => (t, None)
  | None => (zero, Some (parseError layout value))
  end.

Definition two (n : nat) : string :=
  String (ascii_of_nat (48 + n / 10 mod 10)) (String (ascii_of_nat (48 + n mod 10)) "").
Definition four (n : nat) : string := two (n / 100) +:+ two (n mod 100).

(** Days from 0001-01-01, a Monday. *)
Definition dayNumber (t : Civil) : nat :=
  let y := (year t - 1)%nat in
  (365 * y + y / 4 - y / 100 + y / 400
   + sum_list (daysIn (year t) <$> seq 1 (month t - 1)) + (day t - 1))%nat.

Definition clock (t : Civil) : string :=
  two (hour t) +:+ ":" +:+ two (minute t) +:+ ":" +:+ two (second t).

Definition format (t : Civil) (layout : string) : string :=
  if decide (layout = layoutDateTime) then
    four (year t) +:+ "-" +:+ two (month t) +:+ "-" +:+ two (day t) +:+ " " +:+ clock t
  else if decide (layout = RFC1123Z) then
    nth (dayNumber t mod 7) dayNames "" +:+ ", " +:+ two (day t) +:+ " " +:+
    nth (month t - 1) monthNames "" +:+ " " +:+ four (year t) +:+ " " +:+ clock t +:+ " +0000"
  else layout.

Fixpoint contains (c : ascii) (s : string) : bool :=
  match s with
  | EmptyString => false
  | String d s => if decide (c = d) then true else contains c s
  end.

Fixpoint without (c : ascii) (s : string) : string :=
  match s with
  | EmptyString => EmptyString
  | String d s => if decide (c = d) then without c s else String d (without c s)
  end.

Definition doubleQuote : string := String (ascii_of_nat 34) "".

Definition unquote (s : string) : string * option error :=
  let n := String.length s in
  let inner := substring 1 (n - 2) s in
  let bad := ("", Some "invalid syntax") in
  if (n <? 2)%nat then bad
  else if negb (bool_decide (substring 0 1 s = substring (n - 1) 1 s)) then bad
  else if decide (substring 0 1 s = "`") then
    if contains "`" inner then bad else (without (ascii_of_nat 13) inner, None)
  else if decide (substring 0 1 s = doubleQuote) then
    if contains (ascii_of_nat 10) inner || contains "\" inner || contains (ascii_of_nat 34) inner
    then bad else (inner, None)
  else if decide (substring 0 1 s = "'") then
    if bool_decide (String.length inner = 1%nat) &&
       negb (contains (ascii_of_nat 10) inner || contains "\" inner || contains "'" inner)
    then (inner, None) else bad
  else bad.

#[global, refine] Instance runtime : GoRuntime := {|
  Time := Civil;
  Location := unit;
  zeroTime := zero;
  IsZero t := bool_decide (t = zero);
  nyseLocation := tt;
  ParseInLocation layout value _ := parse layout value;
  Parse := parse;
  Format := format;
  Local t := t;
  Unquote := unquote
|}.
Proof.
  - reflexivity.
  - intros layout value _ t e. unfold parse.
    destruct (if decide (layout = layoutDateTime) then _ else _); congruence.
  - intros layout value t e. unfold parse.
    destruct (if decide (layout = layoutDateTime) then _ else _); congruence.
Defined.

End Reference.

(** ** Notions used to state and prove the properties of the differ *)
Section Notions.
Context `{!GoRuntime}.

(** A record the loop body passes over: its symbol is stored with the
    same resume time. *)
Definition quiet (prevHalts : gmap string TradeHalt) (halt : TradeHalt) : Prop :=
  ∃ prevHalt, prevHalts !! Symbol halt = Some prevHalt
              ∧ ResumeDateTime prevHalt = ResumeDateTime halt.

(** What [diffStep] does to the entry of one symbol [s]. *)
Definition keyStep (s : string) (stored : option TradeHalt) (halt : TradeHalt)
  : option TradeHalt :=
  if decide (Symbol halt = s) then
    match stored with
    | Some prevHalt =>
        if decide (ResumeDateTime prevHalt ≠ ResumeDateTime halt)
        then Some halt else Some prevHalt
    | None => Some halt
    end
  else stored.

(** The resume time of the last record of [halts] that carries symbol [s],
    [t] when there is none. *)
Definition lastResume (s : string) (t : option Time) (halts : list TradeHalt)
  : option Time :=
  foldl (λ t halt, if decide (Symbol halt = s) then Some (ResumeDateTime halt) else t)
    t halts.

(** Records of one snapshot that share a symbol share the resume time. *)
Definition consistent (halts : list TradeHalt) : Prop :=
  ∀ h1 h2, h1 ∈ halts → h2 ∈ halts → Symbol h1 = Symbol h2 →
           ResumeDateTime h1 = ResumeDateTime h2.

End Notions.

(** ** Concrete feeds, on the runtime [Reference.runtime] *)
Module Scenario.
Import Reference.

Definition at_ (h mi : nat) : Civil :=
  {| year := 2024; month := 3; day := 15; hour := h; minute := mi; second := 0 |}.

(** AAPL halted at 09:45, no resume time yet. *)
Definition aaplHalted : @TradeHalt runtime :=
  {| Symbol := "AAPL"; Name := "Apple Inc"; Exchange := "NYSE"; Reason := "LULD pause";
     HaltDateTime := at_ 9 45; ResumeDateTime := zero |}.

(** The same halt with the resume time filled in. *)
Definition aaplResumed : @TradeHalt runtime :=
  {| Symbol := "AAPL"; Name := "Apple Inc"; Exchange := "NYSE"; Reason := "LULD pause";
     HaltDateTime := at_ 9 45; ResumeDateTime := at_ 9 50 |}.

(** The same halt with another reason and the resume time still absent. *)
Definition aaplReworded : @TradeHalt runtime :=
  {| Symbol := "AAPL"; Name := "Apple Inc"; Exchange := "NYSE"; Reason := "News pending";
     HaltDateTime := at_ 9 45; ResumeDateTime := zero |}.

(** A second halt of AAPL on the same day. *)
Definition aaplAgain : @TradeHalt runtime :=
  {| Symbol := "AAPL"; Name := "Apple Inc"; Exchange := "NYSE"; Reason := "LULD pause";
     HaltDateTime := at_ 10 0; ResumeDateTime := at_ 10 5 |}.

Definition tslaHalted : @TradeHalt runtime :=
  {| Symbol := "TSLA"; Name := "Tesla Inc"; Exchange := "NYSE"; Reason := "LULD pause";
     HaltDateTime := at_ 9 47; ResumeDateTime := zero |}.

Definition cycle1 : list (@TradeHalt runtime) := [aaplHalted].
Definition cycle2 : list (@TradeHalt runtime) := [aaplResumed; tslaHalted].

(** [prevHalts] after the first cycle. *)
Definition stored1 : gmap string (@TradeHalt runtime) := {[ "AAPL" := aaplHalted ]}.

(** A feed that lists two halts of one symbol. *)
Definition twoHalts : list (@TradeHalt runtime) := [aaplResumed; aaplAgain].

Definition headerRow : list string :=
  ["Halt Date"; "Halt Time"; "Symbol"; "Name"; "Exchange"; "Reason";
   "Resume Date"; "NYSE Resume Time"].

Definition aaplRow : list string :=
  ["2024-03-15"; "09:45:00"; "AAPL"; "Apple Inc"; "NYSE"; "LULD pause"; ""; ""].

(** A row whose halt time does not parse. *)
Definition tslaRow : list string :=
  ["2024-03-15"; "9h47"; "TSLA"; "Tesla Inc"; "NYSE"; "LULD pause";
   "2024-03-15"; "09:52:00"].

(** A row of seven fields. *)
Definition shortRow : list string :=
  ["2024-03-15"; "09:45:00"; "AAPL"; "Apple Inc"; "NYSE"; "LULD pause"; ""].

(** A 200 response with a header-only body and no Last-Modified header. *)
Definition noLastModified : Response :=
  {| StatusCode := 200; LastModified := None; Body := ReadAllOk [headerRow] |}.

(** A 200 response with two data rows and a Last-Modified header. *)
Definition twoRows : Response :=
  {| StatusCode := 200; LastModified := Some "Fri, 15 Mar 2024 14:00:00 GMT";
     Body := ReadAllOk [headerRow; aaplRow; tslaRow] |}.

Definition v1Halt (symbol : string) : V1.TradeHalt :=
  {| V1.HaltDate := "2024-03-15"; V1.HaltTime := "09:45:00"; V1.Symbol := symbol;
     V1.Name := "Issuer"; V1.Exchange := "NYSE"; V1.Reason := "LULD pause";
     V1.ResumeDate := ""; V1.NYSETime := "" |}.

(** The same record of [src/main.go] once the feed gives a resume date. *)
Definition v1Resumed (symbol : string) : V1.TradeHalt :=
  {| V1.HaltDate := "2024-03-15"; V1.HaltTime := "09:45:00"; V1.Symbol := symbol;
     V1.Name := "Issuer"; V1.Exchange := "NYSE"; V1.Reason := "LULD pause";
     V1.ResumeDate := "2024-03-15"; V1.NYSETime := "09:50:00" |}.

End Scenario.

(** ** Notions used for the map of the initial fetch *)
Section MoreNotions.
Context `{!GoRuntime}.

(** The last record of [halts] that carries symbol [s], [stored] when there
    is none. *)
Definition lastOf (s : string) (stored : option TradeHalt) (halts : list TradeHalt)
  : option TradeHalt :=
  foldl (λ stored halt, if decide (Symbol halt = s) then Some halt else stored)
    stored halts.

(** The records an iteration of the last revision gets from its fetch,
    [None] when [fetchTradeHalts] does not return. *)
Definition fetchedHalts (get : GetResult) : option (list TradeHalt) :=
  match V3.fetchTradeHalts get with
  | (_, Return (halts, _)) => Some halts
  | _ => None
  end.

End MoreNotions.

(** ** The differ *)
Section DifferFacts.
Context `{!GoRuntime}.
Implicit Types (m : gmap string TradeHalt) (l : list TradeHalt) (h : TradeHalt).
Implicit Types (o : option TradeHalt) (a : bool) (s : string).
#[local] Arguments diffStep : simpl never.
#[local] Arguments keyStep : simpl never.

Lemma diffStep_lookup m a h s :
  (diffStep (m, a) h).1 !! s = keyStep s (m !! s) h.
Proof.
  unfold diffStep, keyStep.
  destruct (decide (Symbol h = s)) as [<-|Hne].
  - destruct (m !! Symbol h) as [p|] eqn:Hp; [case_decide|]; simpl;
      by rewrite ?lookup_insert_eq.
  - destruct (m !! Symbol h) as [p|] eqn:Hp; [case_decide|]; simpl;
      by rewrite ?lookup_insert_ne.
Qed.

Lemma foldl_diffStep_lookup st l s :
  (foldl diffStep st l).1 !! s = foldl (keyStep s) (st.1 !! s) l.
Proof.
  revert st. induction l as [|h l IH]; intros [m a]; [done|].
  change (foldl diffStep (m, a) (h :: l)) with (foldl diffStep (diffStep (m, a) h) l).
  rewrite IH, diffStep_lookup. done.
Qed.

Lemma diffStep_quiet m a h : quiet m h → diffStep (m, a) h = (m, a).
Proof.
  intros (p & Hp & Heq). unfold diffStep. rewrite Hp.
  by rewrite decide_False by (intros Hne; by apply Hne).
Qed.

Lemma diffStep_cases m a h :
  quiet m h ∧ diffStep (m, a) h = (m, a)
  ∨ ¬ quiet m h ∧ diffStep (m, a) h = (<[Symbol h := h]> m, true).
Proof.
  unfold diffStep, quiet.
  destruct (m !! Symbol h) as [p|] eqn:Hp.
  - case_decide as Hne.
    + right. split; [|done]. intros (p' & [= <-] & Heq). by apply Hne.
    + left. split; [|done]. exists p. split; [done|].
      by destruct (decide (ResumeDateTime p = ResumeDateTime h)).
  - right. split; [|done]. by intros (p' & [=] & _).
Qed.

Lemma foldl_diffStep_true m l : (foldl diffStep (m, true) l).2 = true.
Proof.
  revert m. induction l as [|h l IH]; intros m; [done|]. simpl.
  destruct (diffStep_cases m true h) as [[_ ->]|[_ ->]]; apply IH.
Qed.

Lemma foldl_diffStep_quiet m a l :
  Forall (quiet m) l → foldl diffStep (m, a) l = (m, a).
Proof.
  induction 1 as [|h l Hh _ IH]; [done|]. simpl. by rewrite diffStep_quiet.
Qed.

Lemma foldl_diffStep_false m a l :
  (foldl diffStep (m, a) l).2 = false → a = false ∧ Forall (quiet m) l.
Proof.
  revert m a. induction l as [|h l IH]; intros m a; simpl.
  - intros ->. by split.
  - destruct (diffStep_cases m a h) as [[Hq ->]|[_ ->]].
    + intros [-> Hl]%IH. split; [done|]. by constructor.
    + by rewrite foldl_diffStep_true.
Qed.

(** The flag stays down exactly when every record is passed over. *)
Lemma diffHalts_false_iff m l :
  (diffHalts m l).2 = false ↔ Forall (quiet m) l.
Proof.
  unfold diffHalts. split.
  - by intros [_ ?]%foldl_diffStep_false.
  - intros Hl. by rewrite foldl_diffStep_quiet.
Qed.

Lemma diffHalts_loud m l h :
  h ∈ l → ¬ quiet m h → (diffHalts m l).2 = true.
Proof.
  intros Hin Hloud. destruct (diffHalts m l).2 eqn:Hflag; [done|].
  apply diffHalts_false_iff in Hflag.
  rewrite Forall_forall in Hflag. by destruct Hloud; apply Hflag.
Qed.

Lemma keyFold_cases s o l :
  (foldl (keyStep s) o l = o
   ∧ ∀ r, r ∈ l → Symbol r = s →
          ∃ p, o = Some p ∧ ResumeDateTime p = ResumeDateTime r)
  ∨ (∃ r, r ∈ l ∧ Symbol r = s ∧ foldl (keyStep s) o l = Some r).
Proof.
  induction l as [|h l IH] using rev_ind.
  - left. split; [done|]. intros r Hr. by apply elem_of_nil in Hr.
  - rewrite foldl_app. simpl. unfold keyStep at 1 3.
    destruct (decide (Symbol h = s)) as [Hs|Hs].
    + destruct IH as [[-> Hall]|(r & Hr & Hrs & ->)].
      * destruct o as [p|].
        -- case_decide as Hne.
           ++ right. exists h. rewrite elem_of_app, list_elem_of_singleton. auto.
           ++ left. split; [done|]. intros r [Hr| ->%list_elem_of_singleton]%elem_of_app.
              ** by apply Hall.
              ** intros _. exists p. split; [done|].
                 by destruct (decide (ResumeDateTime p = ResumeDateTime h)).
        -- right. exists h. rewrite elem_of_app, list_elem_of_singleton. auto.
      * right. case_decide.
        -- exists h. rewrite elem_of_app, list_elem_of_singleton. auto.
        -- exists r. rewrite elem_of_app. auto.
    + destruct IH as [[-> Hall]|(r & Hr & Hrs & ->)].
      * left. split; [done|]. intros r [Hr| ->%list_elem_of_singleton]%elem_of_app; [|done].
        by apply Hall.
      * right. exists r. rewrite elem_of_app. auto.
Qed.

Lemma keyFold_settled s h l :
  (∀ r, r ∈ l → Symbol r = s → r = h) →
  foldl (keyStep s) (Some h) l = Some h.
Proof.
  induction l as [|r l IH]; intros Hall; [done|]. simpl.
  assert (keyStep s (Some h) r = Some h) as ->.
  { unfold keyStep. case_decide as Hs; [|done].
    rewrite (Hall r) by (done || by left). by rewrite decide_False by auto. }
  apply IH. intros r' Hr'. apply Hall. by right.
Qed.

Lemma keyFold_only s o l h :
  (∀ r, r ∈ l → Symbol r = s → r = h) → Symbol h = s → h ∈ l →
  ¬ (∃ p, o = Some p ∧ ResumeDateTime p = ResumeDateTime h) →
  foldl (keyStep s) o l = Some h.
Proof.
  revert o. induction l as [|r l IH]; intros o Hall Hs Hin Hloud.
  - by apply elem_of_nil in Hin.
  - simpl. destruct (decide (Symbol r = s)) as [Hrs|Hrs].
    + assert (r = h) as -> by (apply Hall; [by left|done]).
      assert (keyStep s o h = Some h) as ->.
      { unfold keyStep. rewrite decide_True by done.
        destruct o as [p|]; [|done]. case_decide as Hne; [done|].
        destruct Hloud. exists p. split; [done|].
        by destruct (decide (ResumeDateTime p = ResumeDateTime h)). }
      apply keyFold_settled. intros r' Hr'. apply Hall. by right.
    + assert (keyStep s o r = o) as -> by (unfold keyStep; by rewrite decide_False).
      apply IH; [|done| |done].
      * intros r' Hr'. apply Hall. by right.
      * apply elem_of_cons in Hin as [->|]; [by destruct Hrs|done].
Qed.

Lemma keyFold_kept s p l :
  (∀ r, r ∈ l → Symbol r = s → ResumeDateTime r = ResumeDateTime p) →
  foldl (keyStep s) (Some p) l = Some p.
Proof.
  induction l as [|r l IH]; intros Hall; [done|]. simpl.
  assert (keyStep s (Some p) r = Some p) as ->.
  { unfold keyStep. case_decide as Hs; [|done].
    rewrite decide_False; [done|]. intros Hne. apply Hne. symmetry.
    apply Hall; [by left|done]. }
  apply IH. intros r' Hr'. apply Hall. by right.
Qed.

Lemma keyFold_is_Some s o l : is_Some o → is_Some (foldl (keyStep s) o l).
Proof.
  revert o. induction l as [|r l IH]; intros o Ho; [done|]. simpl. apply IH.
  unfold keyStep. destruct Ho as [p ->]. repeat case_decide; eauto.
Qed.

Lemma keyFold_resume s o l :
  ResumeDateTime <$> foldl (keyStep s) o l = lastResume s (ResumeDateTime <$> o) l.
Proof.
  unfold lastResume. revert o. induction l as [|r l IH]; intros o; [done|].
  simpl. rewrite IH. f_equal. unfold keyStep.
  case_decide as Hs; [|done]. destruct o as [p|]; [|done].
  case_decide as Hne; [done|]. simpl. f_equal.
  by destruct (decide (ResumeDateTime p = ResumeDateTime r)).
Qed.

Lemma lastResume_cases s t l :
  (lastResume s t l = t ∧ ∀ r, r ∈ l → Symbol r ≠ s)
  ∨ (∃ r, r ∈ l ∧ Symbol r = s ∧ lastResume s t l = Some (ResumeDateTime r)).
Proof.
  unfold lastResume. induction l as [|h l IH] using rev_ind.
  - left. split; [done|]. intros r Hr. by apply elem_of_nil in Hr.
  - rewrite foldl_app. simpl. case_decide as Hs.
    + right. exists h. rewrite elem_of_app, list_elem_of_singleton. auto.
    + destruct IH as [[-> Hall]|(r & Hr & Hrs & ->)].
      * left. split; [done|].
        intros r [Hr| ->%list_elem_of_singleton]%elem_of_app; [by apply Hall|done].
      * right. exists r. rewrite elem_of_app. auto.
Qed.

(** After a pass over [l], the entry of every symbol of [l] carries the
    resume time of the last record of [l] with that symbol. *)
Lemma diffHalts_resume m l h :
  h ∈ l →
  ∃ r stored, r ∈ l ∧ Symbol r = Symbol h
              ∧ (diffHalts m l).1 !! Symbol h = Some stored
              ∧ ResumeDateTime stored = ResumeDateTime r
              ∧ lastResume (Symbol h) (ResumeDateTime <$> m !! Symbol h) l
                = Some (ResumeDateTime r).
Proof.
  intros Hin. unfold diffHalts.
  pose proof (keyFold_resume (Symbol h) (m !! Symbol h) l) as Hres.
  rewrite <-(foldl_diffStep_lookup (m, false)) in Hres.
  destruct (lastResume_cases (Symbol h) (ResumeDateTime <$> m !! Symbol h) l)
    as [[_ Hnone]|(r & Hr & Hrs & Hlast)].
  - by destruct (Hnone h Hin).
  - rewrite Hlast in Hres.
    destruct ((foldl diffStep (m, false) l).1 !! Symbol h) as [stored|] eqn:Hst;
      [|done].
    injection Hres as Hres. by exists r, stored.
Qed.

(** A second pass over the same slice is quiet exactly on a consistent
    slice. *)
Lemma diffHalts_twice_false_iff m l :
  (diffHalts (diffHalts m l).1 l).2 = false ↔ consistent l.
Proof.
  rewrite diffHalts_false_iff, Forall_forall. unfold consistent. split.
  - intros Hquiet h1 h2 H1 H2 Hs.
    destruct (Hquiet h1 H1) as (p1 & Hp1 & Hr1).
    destruct (Hquiet h2 H2) as (p2 & Hp2 & Hr2).
    rewrite Hs in Hp1. congruence.
  - intros Hcons h Hh.
    destruct (diffHalts_resume m l h Hh) as (r & stored & Hr & Hrs & Hst & Hres & _).
    exists stored. split; [done|]. rewrite Hres. by apply Hcons.
Qed.

Lemma distinct_symbols_consistent l : NoDup (Symbol <$> l) → consistent l.
Proof.
  intros Hnodup h1 h2 [i Hi]%list_elem_of_lookup [j Hj]%list_elem_of_lookup Hs.
  assert (i = j) as ->.
  { eapply (NoDup_lookup _ i j (Symbol h1) Hnodup).
    - by rewrite list_lookup_fmap, Hi.
    - by rewrite list_lookup_fmap, Hj, Hs. }
  congruence.
Qed.

(** On a slice with distinct symbols a second pass is quiet. *)
Lemma diffHalts_twice_distinct_symbols m l :
  NoDup (Symbol <$> l) → (diffHalts (diffHalts m l).1 l).2 = false.
Proof. intros Hnodup. by apply diffHalts_twice_false_iff, distinct_symbols_consistent. Qed.

End DifferFacts.

(** ** The differ of [src/main.go] *)
Section V1Facts.
Implicit Types (X : gset string) (l : list V1.TradeHalt) (h : V1.TradeHalt) (a : bool).
#[local] Arguments V1.diffStep : simpl never.

Lemma V1_diffStep_cases X a h :
  V1.Symbol h ∈ X ∧ V1.diffStep (X, a) h = (X, a)
  ∨ (V1.Symbol h ∉ X) ∧ V1.diffStep (X, a) h = ({[V1.Symbol h]} ∪ X, true).
Proof. unfold V1.diffStep. case_decide; auto. Qed.

Lemma V1_foldl_true X l : (foldl V1.diffStep (X, true) l).2 = true.
Proof.
  revert X. induction l as [|h l IH]; intros X; [done|]. simpl.
  destruct (V1_diffStep_cases X true h) as [[_ ->]|[_ ->]]; apply IH.
Qed.

Lemma V1_foldl_false X a l :
  (foldl V1.diffStep (X, a) l).2 = false → a = false ∧ Forall (λ h, V1.Symbol h ∈ X) l.
Proof.
  revert X a. induction l as [|h l IH]; intros X a; simpl.
  - intros ->. by split.
  - destruct (V1_diffStep_cases X a h) as [[Hin ->]|[_ ->]].
    + intros [-> Hl]%IH. split; [done|]. by constructor.
    + by rewrite V1_foldl_true.
Qed.

Lemma V1_foldl_subset X a l : X ⊆ (foldl V1.diffStep (X, a) l).1.
Proof.
  revert X a. induction l as [|h l IH]; intros X a; [done|]. simpl.
  destruct (V1_diffStep_cases X a h) as [[_ ->]|[_ ->]]; [apply IH|].
  etrans; [|apply IH]. set_solver.
Qed.

Lemma V1_foldl_elem X a l h :
  h ∈ l → V1.Symbol h ∈ (foldl V1.diffStep (X, a) l).1.
Proof.
  revert X a. induction l as [|r l IH]; intros X a Hin.
  - by apply elem_of_nil in Hin.
  - simpl. apply elem_of_cons in Hin as [->|Hin].
    + destruct (V1_diffStep_cases X a r) as [[Hr ->]|[_ ->]];
        eapply V1_foldl_subset; set_solver.
    + destruct (V1.diffStep (X, a) r) as [Y b]. by apply IH.
Qed.

(** In [src/main.go] a second pass over the same slice never rings. *)
Lemma V1_diffHalts_twice X l :
  (V1.diffHalts (V1.diffHalts X l).1 l).2 = false.
Proof.
  unfold V1.diffHalts.
  destruct (foldl V1.diffStep ((foldl V1.diffStep (X, false) l).1, false) l).2 eqn:Hflag;
    [|done].
  assert (Forall (λ h, V1.Symbol h ∈ (foldl V1.diffStep (X, false) l).1) l) as Hall.
  { apply Forall_forall. intros h Hh. by apply V1_foldl_elem. }
  clear -Hflag Hall. revert Hflag Hall.
  generalize (foldl V1.diffStep (X, false) l).1 as Y. intros Y.
  induction l as [|h l IH]; simpl; [done|].
  intros Hflag [Hh Hl]%Forall_cons.
  destruct (V1_diffStep_cases Y false h) as [[_ Heq]|[Hn _]]; [|done].
  rewrite Heq in Hflag. by apply IH.
Qed.

(** A slice whose symbols are all in the set passes without a change. *)
Lemma V1_foldl_known X a l :
  (∀ h, h ∈ l → V1.Symbol h ∈ X) → foldl V1.diffStep (X, a) l = (X, a).
Proof.
  induction l as [|h l IH]; intros Hknown; [done|]. simpl.
  destruct (V1_diffStep_cases X a h) as [[_ ->]|[Hnew _]].
  - apply IH. intros r Hr. apply Hknown. by right.
  - destruct Hnew. apply Hknown. by left.
Qed.

End V1Facts.

(** ** The end-to-end scenario, run *)

(** The map the earlier revision builds from its initial fetch. *)
Example scenario_initial_map : V2.initialMap Scenario.cycle1 = Scenario.stored1.
Proof. reflexivity. Qed.

(** The first pass from the empty map stores AAPL and rings. *)
Example scenario_first_cycle :
  (diffHalts ∅ Scenario.cycle1).2 = true
  ∧ (diffHalts ∅ Scenario.cycle1).1 !! "AAPL" = Some Scenario.aaplHalted.
Proof. split; reflexivity. Qed.

(** The two data rows parse; the unparsable halt time of TSLA is logged. *)
Example scenario_parse :
  parseTradeHalts (ReadAllOk [Scenario.headerRow; Scenario.aaplRow; Scenario.tslaRow])
  = (["failed to parse halt datetime for TSLA: "
      +:+ Reference.parseError layoutDateTime "2024-03-15 9h47"],
     Return [Scenario.aaplHalted;
             {| Symbol := "TSLA"; Name := "Tesla Inc"; Exchange := "NYSE";
                Reason := "LULD pause"; HaltDateTime := Reference.zero;
                ResumeDateTime := Scenario.at_ 9 52 |}]).
Proof. reflexivity. Qed.

(** The row of AAPL as displayed: an empty resume column. *)
Example scenario_row :
  displayRow Scenario.aaplHalted
  = "AAPL" +:+ tab +:+ "Apple Inc" +:+ tab +:+ "NYSE" +:+ tab +:+ "LULD pause" +:+ tab +:+
    "2024-03-15 09:45:00" +:+ tab +:+ "" +:+ newline.
Proof. reflexivity. Qed.

(** [src/main.go] on a header and one row. *)
Example scenario_v1 :
  V1.fetchTradeHalts
    (GetOk {| StatusCode := 200; LastModified := None;
              Body := ReadAllOk [Scenario.headerRow; Scenario.aaplRow] |})
  = Return [V1.haltOf Scenario.aaplRow]
  ∧ V1.initialSet [Scenario.v1Halt "AAPL"] = {["AAPL"]} ∪ ∅.
Proof. split; reflexivity. Qed.

(** ** The claims about the differ *)

#[local] Arguments diffStep : simpl never.
#[local] Arguments keyStep : simpl never.

(** C1, as stated, fails on [src/main.go]: AAPL is in the set built from
    the previous fetch, where its [ResumeDate] was empty; the current
    record of AAPL carries a resume date, and the pass raises nothing and
    leaves the set as it was. *)
Lemma known_symbol_resume_change_is_silent :
  V1.ResumeDate (Scenario.v1Resumed "AAPL") ≠ V1.ResumeDate (Scenario.v1Halt "AAPL")
  ∧ V1.diffHalts (V1.initialSet [Scenario.v1Halt "AAPL"]) [Scenario.v1Resumed "AAPL"]
    = (V1.initialSet [Scenario.v1Halt "AAPL"], false).
Proof.
  split; [discriminate|].
  apply V1_foldl_known. intros h Hh%list_elem_of_singleton. subst h.
  unfold V1.initialSet. simpl. apply elem_of_union_l. by apply elem_of_singleton.
Qed.

(** C1, amended. In the two revisions of [part_001], which keep a map of
    records: every record of the current slice whose symbol has no entry
    in [prevHalts], whatever its other fields, and every record whose
    symbol has an entry with another resume time (a zero [time.Time]
    against a set one included), raises [haltsUpdated]; afterwards the
    symbol is mapped to a record of the current slice, and to that very
    record when no other record of the slice carries its symbol. In
    [src/main.go], which keeps a set of symbols and stores no record: a
    symbol outside the set raises [newHalts] and is added to the set; a
    slice whose symbols are all in the set raises nothing and leaves the
    set as it is, whatever the [ResumeDate] and [NYSETime] of its
    records. *)
Theorem differ_alerts_and_stores `{!GoRuntime} :
  (∀ (prevHalts : gmap string TradeHalt) (currentHalts : list TradeHalt) (halt : TradeHalt),
     halt ∈ currentHalts →
     prevHalts !! Symbol halt = None
     ∨ (∃ prevHalt, prevHalts !! Symbol halt = Some prevHalt
                    ∧ ResumeDateTime prevHalt ≠ ResumeDateTime halt) →
     (diffHalts prevHalts currentHalts).2 = true
     ∧ (∃ r, r ∈ currentHalts ∧ Symbol r = Symbol halt
             ∧ (diffHalts prevHalts currentHalts).1 !! Symbol halt = Some r)
     ∧ ((∀ r, r ∈ currentHalts → Symbol r = Symbol halt → r = halt) →
        (diffHalts prevHalts currentHalts).1 !! Symbol halt = Some halt))
  ∧ (∀ (lastHalts : gset string) (currentHalts : list V1.TradeHalt) (halt : V1.TradeHalt),
       halt ∈ currentHalts → V1.Symbol halt ∉ lastHalts →
       (V1.diffHalts lastHalts currentHalts).2 = true
       ∧ V1.Symbol halt ∈ (V1.diffHalts lastHalts currentHalts).1)
  ∧ (∀ (lastHalts : gset string) (currentHalts : list V1.TradeHalt),
       (∀ halt, halt ∈ currentHalts → V1.Symbol halt ∈ lastHalts) →
       V1.diffHalts lastHalts currentHalts = (lastHalts, false)).
Proof.
  split; [|split].
  - intros m l h Hin Hcase.
    assert (¬ quiet m h) as Hloud.
    { intros (p & Hp & Heq). destruct Hcase as [Hnone|(p' & Hp' & Hne)]; congruence. }
    assert (¬ (∃ p, m !! Symbol h = Some p ∧ ResumeDateTime p = ResumeDateTime h))
      as Hloud' by done.
    split; [by eapply diffHalts_loud|].
    unfold diffHalts. rewrite foldl_diffStep_lookup. simpl. split.
    + destruct (keyFold_cases (Symbol h) (m !! Symbol h) l) as [[_ Hall]|Hr]; [|done].
      destruct Hloud'. by apply Hall.
    + intros Honly. by apply keyFold_only.
  - intros X l h Hin Hnew. unfold V1.diffHalts. split; [|by apply V1_foldl_elem].
    destruct (foldl V1.diffStep (X, false) l).2 eqn:Hflag; [done|].
    apply V1_foldl_false in Hflag as [_ Hall].
    rewrite Forall_forall in Hall. by destruct Hnew; apply Hall.
  - intros X l Hknown. by apply V1_foldl_known.
Qed.

(** The second cycle of the end-to-end scenario: AAPL gets its resume time
    and TSLA is new; in [src/main.go], TSLA is outside the set, and AAPL
    with its resume date alone changes nothing. *)
Lemma differ_alerts_and_stores_witness :
  ((diffHalts Scenario.stored1 Scenario.cycle2).2 = true
   ∧ (diffHalts Scenario.stored1 Scenario.cycle2).1 !! "AAPL" = Some Scenario.aaplResumed
   ∧ (diffHalts Scenario.stored1 Scenario.cycle2).1 !! "TSLA" = Some Scenario.tslaHalted)
  ∧ ((V1.diffHalts {["AAPL"]} [Scenario.v1Halt "AAPL"; Scenario.v1Halt "TSLA"]).2 = true
     ∧ "TSLA" ∈ (V1.diffHalts {["AAPL"]}
                   [Scenario.v1Halt "AAPL"; Scenario.v1Halt "TSLA"]).1)
  ∧ V1.diffHalts {["AAPL"]} [Scenario.v1Resumed "AAPL"] = ({["AAPL"]}, false).
Proof.
  pose proof (@differ_alerts_and_stores Reference.runtime) as (Hdiff & Hset & Hknown).
  split; [|split].
  - destruct (Hdiff Scenario.stored1 Scenario.cycle2 Scenario.aaplResumed)
      as (Hflag & _ & Haapl).
    { unfold Scenario.cycle2. left. }
    { right. exists Scenario.aaplHalted. split; [reflexivity|]. intros [=]. }
    destruct (Hdiff Scenario.stored1 Scenario.cycle2 Scenario.tslaHalted)
      as (_ & _ & Htsla).
    { unfold Scenario.cycle2. right. left. }
    { left. reflexivity. }
    split; [exact Hflag|]. split.
    + apply Haapl. intros r Hr Hs. unfold Scenario.cycle2 in Hr.
      apply elem_of_cons in Hr as [->|Hr]; [reflexivity|].
      apply list_elem_of_singleton in Hr as ->. discriminate Hs.
    + apply Htsla. intros r Hr Hs. unfold Scenario.cycle2 in Hr.
      apply elem_of_cons in Hr as [->|Hr]; [discriminate Hs|].
      by apply list_elem_of_singleton in Hr as ->.
  - apply (Hset {["AAPL"]} [Scenario.v1Halt "AAPL"; Scenario.v1Halt "TSLA"]
             (Scenario.v1Halt "TSLA")).
    + right. left.
    + intros Hin%elem_of_singleton. discriminate Hin.
  - apply Hknown. intros h Hh%list_elem_of_singleton. subst h.
    by apply elem_of_singleton.
Defined.

(** C4. Feeding the same snapshot twice in a row: for every prior map and
    every current slice whose symbols are distinct (a snapshot holds one
    record for a symbol), a second pass over the slice, against the map
    the first pass left, does not raise [haltsUpdated], and leaves that
    map as it is. *)
Theorem second_pass_quiet_on_snapshot `{!GoRuntime}
    (prevHalts : gmap string TradeHalt) (currentHalts : list TradeHalt) :
  NoDup (Symbol <$> currentHalts) →
  (diffHalts (diffHalts prevHalts currentHalts).1 currentHalts).2 = false
  ∧ diffHalts (diffHalts prevHalts currentHalts).1 currentHalts
    = ((diffHalts prevHalts currentHalts).1, false).
Proof.
  intros Hdistinct.
  pose proof (diffHalts_twice_distinct_symbols prevHalts currentHalts Hdistinct) as Hflag.
  split; [done|]. apply diffHalts_false_iff in Hflag.
  unfold diffHalts at 1. by rewrite foldl_diffStep_quiet.
Qed.

(** The second cycle of the scenario, fed twice. *)
Lemma second_pass_quiet_on_snapshot_witness :
  (diffHalts (diffHalts Scenario.stored1 Scenario.cycle2).1 Scenario.cycle2).2 = false
  ∧ diffHalts (diffHalts Scenario.stored1 Scenario.cycle2).1 Scenario.cycle2
    = ((diffHalts Scenario.stored1 Scenario.cycle2).1, false).
Proof.
  apply (@second_pass_quiet_on_snapshot Reference.runtime
           Scenario.stored1 Scenario.cycle2).
  apply NoDup_cons. split; [|apply NoDup_singleton].
  intros Hin%list_elem_of_singleton. discriminate Hin.
Defined.

(** A feed that lists two halts of AAPL with two resume times: after a
    first pass from the empty map, a second pass over the same slice
    raises [haltsUpdated] again. *)
Lemma second_pass_alerts_on_two_halts :
  (diffHalts (diffHalts ∅ Scenario.twoHalts).1 Scenario.twoHalts).2 = true.
Proof. vm_compute. reflexivity. Qed.

(** X21. On a slice that may list a symbol several times, a second pass
    over the same slice, against the map the first pass left, keeps
    [haltsUpdated] down exactly when the records of the slice that share a
    symbol share the resume time; it does whenever the symbols of the slice
    are distinct; and a quiet second pass leaves the map as it is. *)
Theorem second_pass_quiet_iff_consistent `{!GoRuntime}
    (prevHalts : gmap string TradeHalt) (currentHalts : list TradeHalt) :
  ((diffHalts (diffHalts prevHalts currentHalts).1 currentHalts).2 = false
   ↔ ∀ h1 h2, h1 ∈ currentHalts → h2 ∈ currentHalts → Symbol h1 = Symbol h2 →
              ResumeDateTime h1 = ResumeDateTime h2)
  ∧ (NoDup (Symbol <$> currentHalts) →
     (diffHalts (diffHalts prevHalts currentHalts).1 currentHalts).2 = false)
  ∧ ((diffHalts (diffHalts prevHalts currentHalts).1 currentHalts).2 = false →
     diffHalts (diffHalts prevHalts currentHalts).1 currentHalts
     = ((diffHalts prevHalts currentHalts).1, false)).
Proof.
  split; [apply diffHalts_twice_false_iff|].
  split; [apply diffHalts_twice_distinct_symbols|].
  intros Hflag. apply diffHalts_false_iff in Hflag.
  unfold diffHalts at 1. by rewrite foldl_diffStep_quiet.
Qed.

(** Two halts of AAPL resumed at the same time are consistent: the second
    pass is quiet although the symbol is listed twice. *)
Lemma second_pass_quiet_iff_consistent_witness :
  (diffHalts (diffHalts ∅ [Scenario.aaplResumed; Scenario.aaplResumed]).1
     [Scenario.aaplResumed; Scenario.aaplResumed]).2 = false.
Proof.
  apply (proj1 (@second_pass_quiet_iff_consistent Reference.runtime ∅
                  [Scenario.aaplResumed; Scenario.aaplResumed])).
  intros h1 h2 H1 H2 _.
  apply elem_of_cons in H1 as [->|H1]; [|apply list_elem_of_singleton in H1 as ->];
    (apply elem_of_cons in H2 as [->|H2]; [|apply list_elem_of_singleton in H2 as ->]);
    reflexivity.
Defined.

(** C5. When [prevHalts] maps a symbol to a record and every record of the
    current slice with that symbol has the resume time of the stored one,
    whatever its other fields: the loop body returns the map and the flag
    it was given, the pass gives what it gives on the slice without those
    records, and the symbol is still mapped to the stored record. *)
Theorem differ_passes_over_same_resume `{!GoRuntime}
    (prevHalts : gmap string TradeHalt) (currentHalts : list TradeHalt)
    (s : string) (prevHalt : TradeHalt) :
  prevHalts !! s = Some prevHalt →
  (∀ r, r ∈ currentHalts → Symbol r = s → ResumeDateTime r = ResumeDateTime prevHalt) →
  (∀ r haltsUpdated, r ∈ currentHalts → Symbol r = s →
     diffStep (prevHalts, haltsUpdated) r = (prevHalts, haltsUpdated))
  ∧ diffHalts prevHalts currentHalts
    = diffHalts prevHalts (filter (λ r, Symbol r ≠ s) currentHalts)
  ∧ (diffHalts prevHalts currentHalts).1 !! s = Some prevHalt.
Proof.
  intros Hp Hsame. split; [|split].
  - intros r a Hr Hs. apply diffStep_quiet. exists prevHalt.
    rewrite Hs. split; [done|]. symmetry. by apply Hsame.
  - unfold diffHalts. generalize false as a.
    revert prevHalts Hp. induction currentHalts as [|r l IH]; intros m Hp a; [done|].
    rewrite filter_cons. simpl. destruct (decide (Symbol r = s)) as [Hs|Hs].
    + rewrite decide_False by (intros Hne; by apply Hne).
      rewrite diffStep_quiet.
      * apply IH; [|done]. intros r' Hr'. apply Hsame. by right.
      * exists prevHalt. rewrite Hs. split; [done|]. symmetry. apply Hsame; [by left|done].
    + rewrite decide_True by done. simpl.
      pose proof (diffStep_lookup m a r s) as Hstep.
      unfold keyStep in Hstep. rewrite decide_False in Hstep by done.
      destruct (diffStep (m, a) r) as [m' a']. simpl in Hstep.
      apply IH; [|congruence]. intros r' Hr'. apply Hsame. by right.
  - unfold diffHalts. rewrite foldl_diffStep_lookup. simpl. rewrite Hp.
    by apply keyFold_kept.
Qed.

(** AAPL comes back with another reason and the resume time still absent,
    next to a new TSLA: the bell is TSLA's alone and AAPL keeps its stored
    record. *)
Lemma differ_passes_over_same_resume_witness :
  diffStep (Scenario.stored1, false) Scenario.aaplReworded = (Scenario.stored1, false)
  ∧ diffHalts Scenario.stored1 [Scenario.aaplReworded; Scenario.tslaHalted]
    = diffHalts Scenario.stored1 [Scenario.tslaHalted]
  ∧ (diffHalts Scenario.stored1 [Scenario.aaplReworded; Scenario.tslaHalted]).1 !! "AAPL"
    = Some Scenario.aaplHalted.
Proof.
  destruct (@differ_passes_over_same_resume Reference.runtime Scenario.stored1
              [Scenario.aaplReworded; Scenario.tslaHalted] "AAPL" Scenario.aaplHalted)
    as (Hstep & Hpass & Hkept).
  { reflexivity. }
  { intros r Hr Hs. apply elem_of_cons in Hr as [->|Hr]; [reflexivity|].
    apply list_elem_of_singleton in Hr as ->. discriminate Hs. }
  split; [|split].
  - apply Hstep; [by left|reflexivity].
  - exact Hpass.
  - exact Hkept.
Defined.

(** C6. A pass never removes an entry: the symbols mapped before it are
    mapped after it, here and in the set of [src/main.go]; so the map held
    after any number of iterations of the watch loop has every symbol it
    had at the start. *)
Theorem differ_never_removes `{!GoRuntime} :
  (∀ (prevHalts : gmap string TradeHalt) (currentHalts : list TradeHalt),
     dom prevHalts ⊆ dom (diffHalts prevHalts currentHalts).1)
  ∧ (∀ (lastHalts : gset string) (currentHalts : list V1.TradeHalt),
       lastHalts ⊆ (V1.diffHalts lastHalts currentHalts).1)
  ∧ (∀ (prevHalts prevHalts' : gmap string TradeHalt) (ticks : list (GetResult * Time)),
       V3.watchLoop prevHalts ticks = Some prevHalts' →
       dom prevHalts ⊆ dom prevHalts').
Proof.
  assert (∀ (m : gmap string TradeHalt) l, dom m ⊆ dom (diffHalts m l).1) as Hpass.
  { intros m l s. rewrite !elem_of_dom. unfold diffHalts.
    rewrite foldl_diffStep_lookup. apply keyFold_is_Some. }
  split; [done|]. split; [intros X l; apply V1_foldl_subset|].
  intros m m' ticks. revert m. induction ticks as [|[get now] ticks IH]; intros m; simpl.
  - by intros [= ->].
  - unfold V3.watchCycle. destruct (V3.fetchTradeHalts get) as [logs [[l t]|err|msg]]; [|done..].
    specialize (Hpass m l). destruct (diffHalts m l) as [m1 a]. simpl in Hpass.
    intros Hrest%IH. set_solver.
Qed.

(** Two iterations of the watch loop on the reference runtime, from a map
    that holds AAPL, on a feed with AAPL and TSLA. *)
Lemma differ_never_removes_witness :
  ∃ prevHalts',
    V3.watchLoop Scenario.stored1
      [(GetOk Scenario.twoRows, Scenario.at_ 10 0);
       (GetOk Scenario.twoRows, Scenario.at_ 10 1)] = Some prevHalts'
    ∧ dom Scenario.stored1 ⊆ dom prevHalts'.
Proof.
  assert (bool_decide (V3.watchLoop Scenario.stored1
                         [(GetOk Scenario.twoRows, Scenario.at_ 10 0);
                          (GetOk Scenario.twoRows, Scenario.at_ 10 1)] = None) = false)
    as Hruns by (vm_compute; reflexivity).
  destruct (V3.watchLoop Scenario.stored1 _) as [prevHalts'|] eqn:Hloop.
  2: { apply bool_decide_eq_false in Hruns. destruct Hruns. reflexivity. }
  exists prevHalts'. split; [reflexivity|].
  exact (proj2 (proj2 (@differ_never_removes Reference.runtime)) _ _ _ Hloop).
Defined.

(** ** The parser *)
Section ParserFacts.
Context `{!GoRuntime}.
Implicit Types (records rows : list (list string)) (record : list string).
Implicit Types (halts : list TradeHalt) (logs : logbook).

Lemma parseLoop_rows i rows halts logs :
  Forall (λ record, length record = 8%nat) rows →
  parseLoop (S i) rows halts logs
  = (logs ++ concat ((parseRow <$> rows).*2), Return (halts ++ (parseRow <$> rows).*1)).
Proof.
  intros Hrows. revert i halts logs.
  induction Hrows as [|record rows Hlen _ IH]; intros i halts logs.
  - simpl. by rewrite !app_nil_r.
  - cbn [parseLoop Nat.eqb]. rewrite Hlen. cbn [Nat.eqb negb].
    rewrite !fmap_cons. cbn [concat].
    destruct (parseRow record) as [halt lines]. rewrite IH. simpl.
    by rewrite <-!(assoc_L (++)).
Qed.

Lemma parseLoop_malformed i rows halts logs :
  Exists (λ record, length record ≠ 8%nat) rows →
  ∃ logs', parseLoop (S i) rows halts logs = (logs', Panic "malformed record").
Proof.
  revert i halts logs. induction rows as [|record rows IH]; intros i halts logs Hbad.
  - by apply Exists_nil in Hbad.
  - cbn [parseLoop Nat.eqb].
    destruct (length record =? 8)%nat eqn:Hlen; cbn [negb]; [|by eexists].
    apply Nat.eqb_eq in Hlen. apply Exists_cons in Hbad as [Hbad|Hbad]; [done|].
    destruct (parseRow record) as [halt lines]. by apply IH.
Qed.

(** Past the length test, the header is skipped and the loop runs on the
    data rows. *)
Lemma parseTradeHalts_tail records :
  parseTradeHalts (ReadAllOk records)
  = if (length records <? 2)%nat then ([], Return [])
    else parseLoop 1 (tail records) [] [].
Proof. unfold parseTradeHalts. by destruct records. Qed.

Lemma parseTradeHalts_rows records :
  Forall (λ record, length record = 8%nat) (tail records) →
  parseTradeHalts (ReadAllOk records)
  = (concat ((parseRow <$> tail records).*2), Return ((parseRow <$> tail records).*1)).
Proof.
  intros Hrows. rewrite parseTradeHalts_tail.
  destruct (length records <? 2)%nat eqn:Hlen.
  - apply Nat.ltb_lt in Hlen. by destruct records as [|header [|record rows]]; simpl in *; try lia.
  - by rewrite parseLoop_rows.
Qed.

Lemma parseTradeHalts_Return records logs halts :
  parseTradeHalts (ReadAllOk records) = (logs, Return halts) →
  halts = (parseRow <$> tail records).*1
  ∧ logs = concat ((parseRow <$> tail records).*2).
Proof.
  destruct (Forall_Exists_dec (λ record, length record = 8%nat)
              (λ record, length record ≠ 8%nat)
              (λ record, decide (length record = 8%nat)) (tail records)) as [Hrows|Hbad].
  - rewrite parseTradeHalts_rows by done. by intros [= <- <-].
  - rewrite parseTradeHalts_tail. destruct (length records <? 2)%nat eqn:Hlen.
    + apply Nat.ltb_lt in Hlen.
      by destruct records as [|header [|record rows]]; simpl in *; try lia; intros [= <- <-].
    + destruct (parseLoop_malformed 0 (tail records) [] [] Hbad) as [logs' ->]. done.
Qed.

Lemma V1_fetchLoop_rows i rows (halts : list V1.TradeHalt) :
  Forall (λ record, length record = 8%nat) rows →
  V1.fetchLoop (S i) rows halts = Return (halts ++ (V1.haltOf <$> rows)).
Proof.
  intros Hrows. revert i halts.
  induction Hrows as [|record rows Hlen _ IH]; intros i halts.
  - simpl. by rewrite app_nil_r.
  - cbn [V1.fetchLoop Nat.eqb]. rewrite Hlen. cbn [Nat.eqb negb].
    rewrite IH, fmap_cons. by rewrite <-(assoc_L (++)).
Qed.

Lemma V1_fetchLoop_malformed i rows (halts : list V1.TradeHalt) :
  Exists (λ record, length record ≠ 8%nat) rows →
  V1.fetchLoop (S i) rows halts = Panic "malformed record".
Proof.
  revert i halts. induction rows as [|record rows IH]; intros i halts Hbad.
  - by apply Exists_nil in Hbad.
  - cbn [V1.fetchLoop Nat.eqb].
    destruct (length record =? 8)%nat eqn:Hlen; cbn [negb]; [|done].
    apply Nat.eqb_eq in Hlen. apply Exists_cons in Hbad as [Hbad|Hbad]; [done|].
    by apply IH.
Qed.

Lemma two_records records :
  Exists (λ record, length record ≠ 8%nat) (tail records) → (length records <? 2)%nat = false.
Proof.
  intros Hbad. apply Nat.ltb_ge.
  destruct records as [|header [|record rows]]; simpl in *;
    [by apply Exists_nil in Hbad..|lia].
Qed.

End ParserFacts.

(** ** The claims about the parser *)

(** C2. When a data row (any record after the first) has a field count
    other than 8, [parseTradeHalts] ends in [panic("malformed record")],
    the program's way to signal the malformed feed: it returns no slice,
    whatever rows came before or after; so do [fetchTradeHalts] of
    [src/main.go] and the fetch command, which prints no table. A body the
    CSV reader itself rejects makes [parseTradeHalts] return an error and
    no slice. *)
Theorem malformed_row_aborts `{!GoRuntime} (records : list (list string))
    (lastModified : option string) :
  Exists (λ record, length record ≠ 8%nat) (tail records) →
  (∃ logs, parseTradeHalts (ReadAllOk records) = (logs, Panic "malformed record"))
  ∧ (∀ logs halts, parseTradeHalts (ReadAllOk records) ≠ (logs, Return halts))
  ∧ V1.fetchTradeHalts
      (GetOk {| StatusCode := StatusOK; LastModified := lastModified;
                Body := ReadAllOk records |})
    = Panic "malformed record"
  ∧ (∃ logs, V3.FetchCmd_Run
               (GetOk {| StatusCode := StatusOK; LastModified := lastModified;
                         Body := ReadAllOk records |})
             = (logs, Panic "malformed record"))
  ∧ (∀ err, parseTradeHalts (ReadAllErr err) = ([], Failure (Errorf "failed to read csv" err))).
Proof.
  intros Hbad. pose proof (two_records records Hbad) as Hlen.
  assert (∃ logs, parseTradeHalts (ReadAllOk records) = (logs, Panic "malformed record"))
    as [logs Hpanic].
  { rewrite parseTradeHalts_tail, Hlen. by apply parseLoop_malformed. }
  split; [by exists logs|]. split; [intros logs' halts; by rewrite Hpanic|].
  split; [|split; [|done]].
  - unfold V1.fetchTradeHalts. simpl. rewrite Hlen.
    destruct records as [|header rows]; [done|]. by apply V1_fetchLoop_malformed.
  - exists logs. unfold V3.FetchCmd_Run, V3.fetchTradeHalts.
    cbn [StatusCode Body]. by rewrite Z.eqb_refl, Hpanic.
Qed.

(** The malformed-row scenario: a data row of seven fields after a good one. *)
Lemma malformed_row_aborts_witness :
  ∃ logs,
    parseTradeHalts (ReadAllOk [Scenario.headerRow; Scenario.aaplRow; Scenario.shortRow])
    = (logs, Panic "malformed record").
Proof.
  refine (proj1 (@malformed_row_aborts Reference.runtime
                   [Scenario.headerRow; Scenario.aaplRow; Scenario.shortRow] None _)).
  apply Exists_cons_tl, Exists_cons_hd. cbv. discriminate.
Defined.

(** C8. With fewer than two records (no record, or the header alone),
    [parseTradeHalts] returns the empty slice and a nil error, and logs
    nothing. *)
Theorem short_input_parses_empty `{!GoRuntime} (records : list (list string)) :
  length records < 2 →
  parseTradeHalts (ReadAllOk records) = ([], Return []).
Proof.
  intros Hlen. unfold parseTradeHalts.
  by rewrite (proj2 (Nat.ltb_lt _ _) Hlen).
Qed.

Lemma short_input_parses_empty_witness :
  parseTradeHalts (H := Reference.runtime) (ReadAllOk [Scenario.headerRow]) = ([], Return []).
Proof. apply short_input_parses_empty. simpl. lia. Defined.

(** C9. Every record a successful parse returns has for [Name] the result
    of [tryUnquote] on field 3 of its row: the unquoted string when
    [strconv.Unquote] succeeds, and the field as it is when it fails. *)
Theorem name_unquoted_or_raw `{!GoRuntime} (records : list (list string))
    (logs : logbook) (halts : list TradeHalt) (i : nat)
    (record : list string) (halt : TradeHalt) :
  parseTradeHalts (ReadAllOk records) = (logs, Return halts) →
  tail records !! i = Some record →
  halts !! i = Some halt →
  Name halt = tryUnquote (field record 3)
  ∧ (∀ unquoted, Unquote (field record 3) = (unquoted, None) → Name halt = unquoted)
  ∧ (∀ v err, Unquote (field record 3) = (v, Some err) → Name halt = field record 3).
Proof.
  intros [-> _]%parseTradeHalts_Return Hrow.
  rewrite !list_lookup_fmap, Hrow. simpl. intros [= <-].
  assert (Name (parseRow record).1 = tryUnquote (field record 3)) as ->.
  { unfold parseRow. by destruct (parseHaltDateTime record), (parseResumeDateTime record). }
  split; [done|]. unfold tryUnquote. split.
  - by intros unquoted ->.
  - by intros v err ->.
Qed.

(** The name of the AAPL row is not a quoted string: it is kept as it is. *)
Lemma name_unquoted_or_raw_witness :
  Unquote "Apple Inc" = ("", Some "invalid syntax")
  ∧ Name (parseRow Scenario.aaplRow).1 = "Apple Inc".
Proof.
  split; [reflexivity|].
  refine (proj2 (proj2 (@name_unquoted_or_raw Reference.runtime
            [Scenario.headerRow; Scenario.aaplRow] [] [(parseRow Scenario.aaplRow).1]
            0 Scenario.aaplRow (parseRow Scenario.aaplRow).1 _ eq_refl eq_refl))
            "" "invalid syntax" _).
  - reflexivity.
  - reflexivity.
Defined.

(** C10. The result of [parseTradeHalts] does not depend on the first
    record, so its field count is never checked; a single record, whatever
    its field count, and no record at all give the empty slice and no
    error. The same holds for [fetchTradeHalts] of [src/main.go]. *)
Theorem header_row_not_checked `{!GoRuntime} :
  (∀ header header' rows,
     parseTradeHalts (ReadAllOk (header :: rows))
     = parseTradeHalts (ReadAllOk (header' :: rows)))
  ∧ (∀ row, parseTradeHalts (ReadAllOk [row]) = ([], Return []))
  ∧ parseTradeHalts (ReadAllOk []) = ([], Return [])
  ∧ (∀ lastModified header header' rows,
       V1.fetchTradeHalts
         (GetOk {| StatusCode := StatusOK; LastModified := lastModified;
                   Body := ReadAllOk (header :: rows) |})
       = V1.fetchTradeHalts
           (GetOk {| StatusCode := StatusOK; LastModified := lastModified;
                     Body := ReadAllOk (header' :: rows) |}))
  ∧ (∀ lastModified row,
       V1.fetchTradeHalts
         (GetOk {| StatusCode := StatusOK; LastModified := lastModified;
                   Body := ReadAllOk [row] |})
       = Return []).
Proof.
  split; [reflexivity|]. split; [reflexivity|]. split; [reflexivity|].
  split; reflexivity.
Qed.

(** C7. When every data row has 8 fields the parse returns, with one record
    per data row and the logged lines of the rows in order. For each row:
    an empty date or time sub-field leaves the timestamp at the zero
    [time.Time] and logs nothing; two non-empty sub-fields that
    [time.ParseInLocation] rejects leave it at the zero [time.Time] and log
    one line, and the parse still returns; and a record whose halt
    timestamp is the zero [time.Time] is displayed with the empty string in
    the halt-time column. *)
Theorem absent_timestamps_not_fatal `{!GoRuntime} (records : list (list string)) :
  Forall (λ record, length record = 8%nat) (tail records) →
  ∃ logs halts,
    parseTradeHalts (ReadAllOk records) = (logs, Return halts)
    ∧ logs = concat ((λ record, (parseHaltDateTime record).2
                                ++ (parseResumeDateTime record).2) <$> tail records)
    ∧ ∀ i record, tail records !! i = Some record →
        ∃ halt, halts !! i = Some halt
          ∧ HaltDateTime halt = (parseHaltDateTime record).1
          ∧ ResumeDateTime halt = (parseResumeDateTime record).1
          ∧ (field record 0 = "" ∨ field record 1 = "" →
             parseHaltDateTime record = (zeroTime, []))
          ∧ (field record 6 = "" ∨ field record 7 = "" →
             parseResumeDateTime record = (zeroTime, []))
          ∧ (∀ t err, field record 0 ≠ "" → field record 1 ≠ "" →
               ParseInLocation layoutDateTime
                 (field record 0 +:+ " " +:+ field record 1) nyseLocation = (t, Some err) →
               parseHaltDateTime record
               = (zeroTime,
                  ["failed to parse halt datetime for " +:+ field record 2 +:+ ": " +:+ err]))
          ∧ (∀ t err, field record 6 ≠ "" → field record 7 ≠ "" →
               ParseInLocation layoutDateTime
                 (field record 6 +:+ " " +:+ field record 7) nyseLocation = (t, Some err) →
               parseResumeDateTime record
               = (zeroTime,
                  ["failed to parse resume datetime for " +:+ field record 2 +:+ ": " +:+ err]))
          ∧ (HaltDateTime halt = zeroTime →
             haltTimeLocal halt = ""
             ∧ displayRow halt
               = Symbol halt +:+ tab +:+ Name halt +:+ tab +:+ Exchange halt +:+ tab +:+
                 Reason halt +:+ tab +:+ "" +:+ tab +:+ resumeTimeLocal halt +:+ newline).
Proof.
  intros Hrows. eexists _, _. split; [by apply parseTradeHalts_rows|]. split.
  - f_equal. rewrite <-!list_fmap_compose. apply list_fmap_ext. intros _ record _. simpl.
    unfold parseRow. by destruct (parseHaltDateTime record), (parseResumeDateTime record).
  - intros i record Hrow. exists (parseRow record).1.
    split; [by rewrite !list_lookup_fmap, Hrow|].
    split; [unfold parseRow;
            by destruct (parseHaltDateTime record), (parseResumeDateTime record)|].
    split; [unfold parseRow;
            by destruct (parseHaltDateTime record), (parseResumeDateTime record)|].
    split; [|split; [|split; [|split]]].
    + intros Hempty. unfold parseHaltDateTime. rewrite decide_False; [done|].
      intros [? ?]. by destruct Hempty.
    + intros Hempty. unfold parseResumeDateTime. rewrite decide_False; [done|].
      intros [? ?]. by destruct Hempty.
    + intros t err Hd Ht Hparse. unfold parseHaltDateTime.
      rewrite decide_True by done. rewrite Hparse.
      by rewrite (ParseInLocation_error_zero _ _ _ _ _ Hparse).
    + intros t err Hd Ht Hparse. unfold parseResumeDateTime.
      rewrite decide_True by done. rewrite Hparse.
      by rewrite (ParseInLocation_error_zero _ _ _ _ _ Hparse).
    + intros Hzero.
      assert (haltTimeLocal (parseRow record).1 = "") as Hcell.
      { unfold haltTimeLocal. by rewrite Hzero, IsZero_zeroTime. }
      split; [done|]. unfold displayRow. by rewrite Hcell.
Qed.

(** The AAPL row has no resume date; the halt time of the TSLA row does not
    parse: one line is logged and both records are returned. *)
Lemma absent_timestamps_not_fatal_witness :
  ∃ logs halts,
    parseTradeHalts (ReadAllOk [Scenario.headerRow; Scenario.aaplRow; Scenario.tslaRow])
    = (logs, Return halts)
    ∧ length logs = 1%nat
    ∧ ResumeDateTime <$> halts !! 0%nat = Some zeroTime
    ∧ HaltDateTime <$> halts !! 1%nat = Some zeroTime
    ∧ haltTimeLocal <$> halts !! 1%nat = Some "".
Proof.
  destruct (@absent_timestamps_not_fatal Reference.runtime
              [Scenario.headerRow; Scenario.aaplRow; Scenario.tslaRow])
    as (logs & halts & Hparse & Hlogs & Hrows).
  { repeat constructor. }
  exists logs, halts. split; [exact Hparse|]. split; [by rewrite Hlogs|].
  destruct (Hrows 0%nat Scenario.aaplRow eq_refl)
    as (aapl & Haapl & _ & Hresume & _ & Hempty & _).
  destruct (Hrows 1%nat Scenario.tslaRow eq_refl)
    as (tsla & Htsla & Hhalt & _ & _ & _ & Hbad & _ & Hshow).
  rewrite Haapl, Htsla. simpl.
  assert (HaltDateTime tsla = zeroTime) as Hzero.
  { rewrite Hhalt. by erewrite Hbad; [|done|done|reflexivity]. }
  split; [|split].
  - f_equal. rewrite Hresume, Hempty; [done|by left].
  - by f_equal.
  - f_equal. by apply Hshow.
Defined.

(** ** The poll loop and the Last-Modified header *)

(** C3, as stated, fails on the revision that reads the header: a 200
    response with a well-formed (header-only) body and no Last-Modified
    header ends the watch loop at [log.Fatal]; nothing is displayed. *)
Lemma missing_last_modified_is_fatal :
  V3.watchCycle ∅ (GetOk Scenario.noLastModified) (Scenario.at_ 10 0)
  = ([], Fatal (Errorf "failed to parse last modified header"
                  (Reference.parseError RFC1123 ""))).
Proof. reflexivity. Qed.

(** C3, amended. In the revision that reads the header (lines 217-446 of
    [part_001]), when the status is 200, the body parses and
    [time.Parse(time.RFC1123, ...)] rejects the Last-Modified header (the
    empty string when the header is absent), [fetchTradeHalts] returns the
    error "failed to parse last modified header" and the iteration of the
    watch loop ends at [log.Fatal] with it, before the bell and the
    display; the fetch command fails with the same error. The earlier
    revision (lines 1-215) does not read the header: its iteration goes on
    and displays the table with the time of the fetch. *)
Theorem unparsable_last_modified_is_fatal `{!GoRuntime} (resp : Response)
    (prevHalts : gmap string TradeHalt) (now : Time)
    (logs : logbook) (halts : list TradeHalt) (t : Time) (err : error) :
  StatusCode resp = StatusOK →
  parseTradeHalts (Body resp) = (logs, Return halts) →
  Parse RFC1123 (Header_Get_LastModified resp) = (t, Some err) →
  V3.fetchTradeHalts (GetOk resp)
  = (logs, Failure (Errorf "failed to parse last modified header" err))
  ∧ V3.watchCycle prevHalts (GetOk resp) now
    = (logs, Fatal (Errorf "failed to parse last modified header" err))
  ∧ V3.FetchCmd_Run (GetOk resp)
    = (logs, Failure (Errorf "failed to fetch trade halts"
                        (Errorf "failed to parse last modified header" err)))
  ∧ V2.watchCycle prevHalts (GetOk resp) now
    = (logs, Continue (diffHalts prevHalts halts).1
               (bell (diffHalts prevHalts halts).2 ++ clearScreen
                ++ displayHaltsTable halts ++ V2.updatedAt now)).
Proof.
  intros Hstatus Hparse Hheader.
  assert (V3.fetchTradeHalts (GetOk resp)
          = (logs, Failure (Errorf "failed to parse last modified header" err))) as Hfetch.
  { unfold V3.fetchTradeHalts. by rewrite Hstatus, Hparse, Hheader. }
  split; [done|]. split; [|split].
  - unfold V3.watchCycle. by rewrite Hfetch.
  - unfold V3.FetchCmd_Run. by rewrite Hfetch.
  - unfold V2.watchCycle, V2.fetchTradeHalts. rewrite Hstatus, Hparse. simpl.
    by destruct (diffHalts prevHalts halts).
Qed.

(** The response without a Last-Modified header, after a first cycle that
    stored AAPL. *)
Lemma unparsable_last_modified_is_fatal_witness :
  V3.watchCycle Scenario.stored1 (GetOk Scenario.noLastModified) (Scenario.at_ 10 0)
  = ([], Fatal (Errorf "failed to parse last modified header"
                  (Reference.parseError RFC1123 ""))).
Proof.
  apply (@unparsable_last_modified_is_fatal Reference.runtime Scenario.noLastModified
           Scenario.stored1 (Scenario.at_ 10 0) [] [] Reference.zero
           (Reference.parseError RFC1123 "")).
  - reflexivity.
  - reflexivity.
  - reflexivity.
Defined.

(** When the header parses, the iteration displays it as "Last updated". *)
Lemma parsable_last_modified_is_displayed `{!GoRuntime} (resp : Response)
    (prevHalts : gmap string TradeHalt) (now : Time)
    (logs : logbook) (halts : list TradeHalt) (lastModified : Time) :
  StatusCode resp = StatusOK →
  parseTradeHalts (Body resp) = (logs, Return halts) →
  Parse RFC1123 (Header_Get_LastModified resp) = (lastModified, None) →
  V3.watchCycle prevHalts (GetOk resp) now
  = (logs, Continue (diffHalts prevHalts halts).1
             (bell (diffHalts prevHalts halts).2
              ++ V3.displayFunc halts lastModified now)).
Proof.
  intros Hstatus Hparse Hheader.
  unfold V3.watchCycle, V3.fetchTradeHalts. rewrite Hstatus, Hparse, Hheader. simpl.
  by destruct (diffHalts prevHalts halts).
Qed.

(** ** Further properties of the differ *)

Section DifferMore.
Context `{!GoRuntime}.
Implicit Types (m : gmap string TradeHalt) (l : list TradeHalt) (h : TradeHalt).
Implicit Types (o : option TradeHalt) (a : bool) (s : string).

Lemma quiet_or_loud m h :
  quiet m h
  ∨ (m !! Symbol h = None
     ∨ ∃ p, m !! Symbol h = Some p ∧ ResumeDateTime p ≠ ResumeDateTime h).
Proof.
  unfold quiet. destruct (m !! Symbol h) as [p|]; [|by right; left].
  destruct (decide (ResumeDateTime p = ResumeDateTime h)); [left|right; right]; eauto.
Qed.

Lemma loud_not_quiet m h :
  (m !! Symbol h = None
   ∨ ∃ p, m !! Symbol h = Some p ∧ ResumeDateTime p ≠ ResumeDateTime h) →
  ¬ quiet m h.
Proof. intros [Hnone|(p & Hp & Hne)] (p' & Hp' & Heq); congruence. Qed.

(** The map a pass leaves does not depend on the flag it starts from. *)
Lemma foldl_diffStep_flag m a l :
  foldl diffStep (m, a) l
  = ((foldl diffStep (m, false) l).1, a || (foldl diffStep (m, false) l).2).
Proof.
  revert m a. induction l as [|h l IH]; intros m a.
  - simpl. by rewrite orb_false_r.
  - simpl. destruct (diffStep_cases m a h) as [[Hq ->]|[Hl ->]];
      destruct (diffStep_cases m false h) as [[Hq' ->]|[Hl' ->]]; try done.
    rewrite (IH _ true). simpl. by rewrite orb_true_r.
Qed.

Lemma keyFold_absent s o l :
  (∀ r, r ∈ l → Symbol r ≠ s) → foldl (keyStep s) o l = o.
Proof.
  intros Hnone. destruct (keyFold_cases s o l) as [[-> _]|(r & Hr & Hs & _)]; [done|].
  by destruct (Hnone r Hr).
Qed.

Lemma foldl_diffStep_dom m a l :
  dom (foldl diffStep (m, a) l).1 = dom m ∪ list_to_set (Symbol <$> l).
Proof.
  revert m a. induction l as [|h l IH]; intros m a; simpl.
  - set_solver.
  - destruct (diffStep_cases m a h) as [[(p & Hp & _) ->]|[_ ->]]; rewrite IH.
    + assert (Symbol h ∈ dom m) by (apply elem_of_dom; eauto). set_solver.
    + rewrite dom_insert_L. set_solver.
Qed.

Lemma lastResume_last s t l1 r l2 :
  Symbol r = s → (∀ x, x ∈ l2 → Symbol x ≠ s) →
  lastResume s t (l1 ++ r :: l2) = Some (ResumeDateTime r).
Proof.
  intros Hs Hnone. unfold lastResume. rewrite foldl_app. simpl.
  rewrite decide_True by done.
  destruct (lastResume_cases s (Some (ResumeDateTime r)) l2)
    as [[Heq _]|(x & Hx & Hxs & _)]; [done|by destruct (Hnone x Hx)].
Qed.

End DifferMore.

#[local] Arguments diffStep : simpl never.

(** X1. The bell condition, exactly: a pass raises [haltsUpdated] if and
    only if some record of the current slice has a symbol without entry in
    the map the pass started from, or with an entry of another resume
    time. *)
Theorem differ_rings_iff `{!GoRuntime}
    (prevHalts : gmap string TradeHalt) (currentHalts : list TradeHalt) :
  (diffHalts prevHalts currentHalts).2 = true
  ↔ ∃ halt, halt ∈ currentHalts
            ∧ (prevHalts !! Symbol halt = None
               ∨ ∃ prevHalt, prevHalts !! Symbol halt = Some prevHalt
                             ∧ ResumeDateTime prevHalt ≠ ResumeDateTime halt).
Proof.
  split.
  - intros Hflag.
    assert (Forall (quiet prevHalts) currentHalts
            ∨ ∃ halt, halt ∈ currentHalts
                      ∧ (prevHalts !! Symbol halt = None
                         ∨ ∃ prevHalt, prevHalts !! Symbol halt = Some prevHalt
                                       ∧ ResumeDateTime prevHalt ≠ ResumeDateTime halt))
      as [Hquiet|Hloud]; [|by apply diffHalts_false_iff in Hquiet; congruence|done].
    clear Hflag. induction currentHalts as [|h l IH].
    + by left.
    + destruct (quiet_or_loud prevHalts h) as [Hq|Hl].
      * destruct IH as [IH|(halt & Hin & Hl)].
        -- left. by constructor.
        -- right. exists halt. split; [by right|done].
      * right. exists h. split; [by left|done].
  - intros (halt & Hin & Hloud). eapply diffHalts_loud; [done|].
    by apply loud_not_quiet.
Qed.

(** X2. A pass that does not raise [haltsUpdated] has changed nothing: the
    map is the one it started from. *)
Theorem differ_quiet_changes_nothing `{!GoRuntime}
    (prevHalts : gmap string TradeHalt) (currentHalts : list TradeHalt) :
  (diffHalts prevHalts currentHalts).2 = false →
  (diffHalts prevHalts currentHalts).1 = prevHalts.
Proof.
  intros Hflag. apply diffHalts_false_iff in Hflag.
  unfold diffHalts. by rewrite foldl_diffStep_quiet.
Qed.

Lemma differ_quiet_changes_nothing_witness :
  (diffHalts Scenario.stored1 [Scenario.aaplReworded]).1 = Scenario.stored1.
Proof.
  apply (@differ_quiet_changes_nothing Reference.runtime). reflexivity.
Defined.

(** X3. After a pass the mapped symbols are those mapped before and those of
    the current slice, no more and no less; and a symbol that no record of
    the slice carries keeps the record it had. *)
Theorem differ_domain_and_frame `{!GoRuntime}
    (prevHalts : gmap string TradeHalt) (currentHalts : list TradeHalt) :
  dom (diffHalts prevHalts currentHalts).1
  = dom prevHalts ∪ list_to_set (Symbol <$> currentHalts)
  ∧ ∀ s, (∀ r, r ∈ currentHalts → Symbol r ≠ s) →
         (diffHalts prevHalts currentHalts).1 !! s = prevHalts !! s.
Proof.
  split; [apply foldl_diffStep_dom|].
  intros s Hnone. unfold diffHalts. rewrite foldl_diffStep_lookup. simpl.
  by apply keyFold_absent.
Qed.

Lemma differ_domain_and_frame_witness :
  (diffHalts Scenario.stored1 [Scenario.tslaHalted]).1 !! "AAPL"
  = Some Scenario.aaplHalted.
Proof.
  rewrite (proj2 (@differ_domain_and_frame Reference.runtime
                    Scenario.stored1 [Scenario.tslaHalted]) "AAPL"); [reflexivity|].
  intros r Hr%list_elem_of_singleton Hs. rewrite Hr in Hs. discriminate Hs.
Defined.

(** X4. After a pass, the entry of a symbol of the slice carries the resume
    time of the last record of the slice with that symbol, also when the
    slice lists the symbol several times. *)
Theorem differ_stores_last_resume `{!GoRuntime}
    (prevHalts : gmap string TradeHalt) (before after : list TradeHalt)
    (halt : TradeHalt) :
  (∀ r, r ∈ after → Symbol r ≠ Symbol halt) →
  ∃ stored,
    (diffHalts prevHalts (before ++ halt :: after)).1 !! Symbol halt = Some stored
    ∧ ResumeDateTime stored = ResumeDateTime halt.
Proof.
  intros Hlast. unfold diffHalts.
  pose proof (keyFold_resume (Symbol halt) (prevHalts !! Symbol halt)
                (before ++ halt :: after)) as Hres.
  rewrite <-(foldl_diffStep_lookup (prevHalts, false)) in Hres.
  rewrite (lastResume_last _ _ before halt after eq_refl Hlast) in Hres.
  destruct ((foldl diffStep (prevHalts, false) (before ++ halt :: after)).1
              !! Symbol halt) as [stored|]; [|done].
  injection Hres as Hres. by exists stored.
Qed.

(** Two halts of AAPL in one feed: the entry carries the resume time of the
    second. *)
Lemma differ_stores_last_resume_witness :
  ∃ stored,
    (diffHalts ∅ ([Scenario.aaplResumed] ++ Scenario.aaplAgain :: [])).1 !! "AAPL"
    = Some stored
    ∧ ResumeDateTime stored = Scenario.at_ 10 5.
Proof.
  apply (@differ_stores_last_resume Reference.runtime ∅ [Scenario.aaplResumed] []
           Scenario.aaplAgain).
  intros r Hr. by apply elem_of_nil in Hr.
Defined.

(** X5. A pass over two slices in a row is a pass over their
    concatenation: the same map, and the flag is raised when either pass
    raises it. *)
Theorem differ_composes `{!GoRuntime}
    (prevHalts : gmap string TradeHalt) (first second : list TradeHalt) :
  diffHalts prevHalts (first ++ second)
  = ((diffHalts (diffHalts prevHalts first).1 second).1,
     (diffHalts prevHalts first).2 || (diffHalts (diffHalts prevHalts first).1 second).2).
Proof.
  unfold diffHalts. rewrite foldl_app.
  destruct (foldl diffStep (prevHalts, false) first) as [m a]. simpl.
  apply foldl_diffStep_flag.
Qed.

(** X6. From the empty map, with which the loop of the last revision
    starts, a pass raises [haltsUpdated] exactly when the slice is not
    empty, and maps exactly the symbols of the slice. *)
Theorem first_pass_from_empty `{!GoRuntime} (currentHalts : list TradeHalt) :
  ((diffHalts ∅ currentHalts).2 = true ↔ currentHalts ≠ [])
  ∧ dom (diffHalts ∅ currentHalts).1 = list_to_set (Symbol <$> currentHalts).
Proof.
  split.
  - split.
    + intros Hflag ->. discriminate Hflag.
    + destruct currentHalts as [|h l]; [done|]. intros _.
      apply (diffHalts_loud _ _ h); [by left|].
      intros (p & Hp & _). by rewrite lookup_empty in Hp.
  - unfold diffHalts. rewrite foldl_diffStep_dom. set_solver.
Qed.

(** ** Further properties of the parser *)

Section ParserMore.
Context `{!GoRuntime}.
Implicit Types (records rows : list (list string)) (record : list string).

Lemma parseRow_fields record :
  Symbol (parseRow record).1 = field record 2
  ∧ Name (parseRow record).1 = tryUnquote (field record 3)
  ∧ Exchange (parseRow record).1 = field record 4
  ∧ Reason (parseRow record).1 = field record 5
  ∧ HaltDateTime (parseRow record).1 = (parseHaltDateTime record).1
  ∧ ResumeDateTime (parseRow record).1 = (parseResumeDateTime record).1.
Proof.
  unfold parseRow. by destruct (parseHaltDateTime record), (parseResumeDateTime record).
Qed.

End ParserMore.

(** X7. On a body the CSV reader accepted, [parseTradeHalts] returns if and
    only if every record after the first has 8 fields; it never returns an
    error for such a body (a malformed row is a panic, not an error). *)
Theorem parse_returns_iff_rows_have_8_fields `{!GoRuntime} (records : list (list string)) :
  ((∃ logs halts, parseTradeHalts (ReadAllOk records) = (logs, Return halts))
   ↔ Forall (λ record, length record = 8%nat) (tail records))
  ∧ ∀ logs err, parseTradeHalts (ReadAllOk records) ≠ (logs, Failure err).
Proof.
  destruct (Forall_Exists_dec (λ record, length record = 8%nat)
              (λ record, length record ≠ 8%nat)
              (λ record, decide (length record = 8%nat)) (tail records)) as [Hrows|Hbad].
  - rewrite parseTradeHalts_rows by done. split; [|done]. split; [done|eauto].
  - rewrite parseTradeHalts_tail, (two_records _ Hbad).
    destruct (parseLoop_malformed 0 (tail records) [] [] Hbad) as [logs' ->].
    split; [|done]. split.
    + by intros (logs & halts & [=]).
    + intros Hrows. apply Exists_exists in Hbad as (record & Hin & Hlen).
      rewrite Forall_forall in Hrows. by destruct Hlen; apply Hrows.
Qed.

(** X8. A parse that returns gives one record per data row, in the order of
    the rows; symbol, exchange and reason are fields 2, 4 and 5 of the row
    as they are, and a date and time pair that [time.ParseInLocation]
    accepts gives the parsed time. *)
Theorem parse_keeps_rows_in_order `{!GoRuntime} (records : list (list string))
    (logs : logbook) (halts : list TradeHalt) :
  parseTradeHalts (ReadAllOk records) = (logs, Return halts) →
  length halts = (length records - 1)%nat
  ∧ ∀ i record, records !! S i = Some record →
      ∃ halt, halts !! i = Some halt
        ∧ Symbol halt = field record 2
        ∧ Exchange halt = field record 4
        ∧ Reason halt = field record 5
        ∧ (∀ t, field record 0 ≠ "" → field record 1 ≠ "" →
             ParseInLocation layoutDateTime
               (field record 0 +:+ " " +:+ field record 1) nyseLocation = (t, None) →
             HaltDateTime halt = t)
        ∧ (∀ t, field record 6 ≠ "" → field record 7 ≠ "" →
             ParseInLocation layoutDateTime
               (field record 6 +:+ " " +:+ field record 7) nyseLocation = (t, None) →
             ResumeDateTime halt = t).
Proof.
  intros [-> _]%parseTradeHalts_Return. split.
  - rewrite !length_fmap. destruct records; simpl; lia.
  - intros i record Hrow. exists (parseRow record).1.
    assert (tail records !! i = Some record) as Htail by (by destruct records).
    split; [by rewrite !list_lookup_fmap, Htail|].
    destruct (parseRow_fields record) as (-> & _ & -> & -> & -> & ->).
    do 3 (split; [done|]). split.
    + intros t Hd Ht Hparse. unfold parseHaltDateTime.
      by rewrite decide_True, Hparse by done.
    + intros t Hd Ht Hparse. unfold parseResumeDateTime.
      by rewrite decide_True, Hparse by done.
Qed.

Lemma parse_keeps_rows_in_order_witness :
  ∃ halt,
    [(parseRow Scenario.aaplRow).1] !! 0%nat = Some halt
    ∧ Symbol halt = "AAPL" ∧ Exchange halt = "NYSE" ∧ Reason halt = "LULD pause"
    ∧ HaltDateTime halt = Scenario.at_ 9 45.
Proof.
  destruct (@parse_keeps_rows_in_order Reference.runtime
              [Scenario.headerRow; Scenario.aaplRow] [] [(parseRow Scenario.aaplRow).1]
              eq_refl) as [_ Hrows].
  destruct (Hrows 0%nat Scenario.aaplRow eq_refl)
    as (halt & Hhalt & Hs & He & Hr & Htime & _).
  exists halt. do 4 (split; [done|]).
  apply Htime; [discriminate|discriminate|reflexivity].
Defined.

(** X9. The CSV reader, left with its default field count, returns bodies
    whose records all have the field count of the first. On such a body
    with two records or more and a field count other than 8, the parse
    panics at its first data row: nothing has been logged, no row is
    turned into a record, and nothing is returned; so does
    [fetchTradeHalts] of [src/main.go]. *)
Theorem parse_panics_on_wrong_width `{!GoRuntime} (records : list (list string))
    (n : nat) (lastModified : option string) :
  n ≠ 8%nat →
  Forall (λ record, length record = n) records →
  2 ≤ length records →
  parseTradeHalts (ReadAllOk records) = ([], Panic "malformed record")
  ∧ V1.fetchTradeHalts
      (GetOk {| StatusCode := StatusOK; LastModified := lastModified;
                Body := ReadAllOk records |})
    = Panic "malformed record".
Proof.
  intros Hn Hwidth Hlen.
  destruct records as [|header [|record rows]]; simpl in Hlen; try lia.
  apply Forall_cons in Hwidth as [_ [Hrecord _]%Forall_cons].
  assert ((length record =? 8)%nat = false) as Hbad
    by (apply Nat.eqb_neq; congruence).
  unfold parseTradeHalts, V1.fetchTradeHalts. simpl. by rewrite Hbad.
Qed.

(** A feed of three columns. *)
Lemma parse_panics_on_wrong_width_witness :
  parseTradeHalts
    (H := Reference.runtime)
    (ReadAllOk [["Symbol"; "Name"; "Reason"]; ["AAPL"; "Apple Inc"; "LULD pause"];
                ["TSLA"; "Tesla Inc"; "LULD pause"]])
  = ([], Panic "malformed record").
Proof.
  apply (@parse_panics_on_wrong_width Reference.runtime
           [["Symbol"; "Name"; "Reason"]; ["AAPL"; "Apple Inc"; "LULD pause"];
            ["TSLA"; "Tesla Inc"; "LULD pause"]] 3 None).
  - discriminate.
  - repeat constructor.
  - simpl. lia.
Defined.

(** X10. [fetchTradeHalts] of [src/main.go], on a 200 response whose body
    the CSV reader accepted, returns if and only if every record after the
    first has 8 fields, and then returns one record per data row, in order,
    whose eight fields are the eight fields of the row. *)
Theorem V1_fetch_returns_rows_verbatim (records : list (list string))
    (lastModified : option string) :
  ((∃ halts, V1.fetchTradeHalts
               (GetOk {| StatusCode := StatusOK; LastModified := lastModified;
                         Body := ReadAllOk records |}) = Return halts)
   ↔ Forall (λ record, length record = 8%nat) (tail records))
  ∧ ∀ halts,
      V1.fetchTradeHalts
        (GetOk {| StatusCode := StatusOK; LastModified := lastModified;
                  Body := ReadAllOk records |}) = Return halts →
      length halts = (length records - 1)%nat
      ∧ ∀ i record, records !! S i = Some record →
          ∃ halt, halts !! i = Some halt
            ∧ [V1.HaltDate halt; V1.HaltTime halt; V1.Symbol halt; V1.Name halt;
               V1.Exchange halt; V1.Reason halt; V1.ResumeDate halt; V1.NYSETime halt]
              = record.
Proof.
  assert (V1.fetchTradeHalts
            (GetOk {| StatusCode := StatusOK; LastModified := lastModified;
                      Body := ReadAllOk records |})
          = if (length records <? 2)%nat then Return []
            else V1.fetchLoop 1 (tail records) []) as ->.
  { unfold V1.fetchTradeHalts. simpl. by destruct records. }
  destruct (Forall_Exists_dec (λ record, length record = 8%nat)
              (λ record, length record ≠ 8%nat)
              (λ record, decide (length record = 8%nat)) (tail records)) as [Hrows|Hbad].
  - assert ((if (length records <? 2)%nat then Return []
             else V1.fetchLoop 1 (tail records) []) = Return (V1.haltOf <$> tail records))
      as ->.
    { destruct (length records <? 2)%nat eqn:Hlen.
      - apply Nat.ltb_lt in Hlen.
        by destruct records as [|header [|record rows]]; simpl in *; try lia.
      - by rewrite V1_fetchLoop_rows. }
    split; [split; [done|eauto]|].
    intros halts [= <-]. split; [rewrite length_fmap; destruct records; simpl; lia|].
    intros i record Hrow.
    assert (tail records !! i = Some record) as Htail by (by destruct records).
    exists (V1.haltOf record). split; [by rewrite list_lookup_fmap, Htail|].
    assert (length record = 8%nat) as Hlen.
    { rewrite Forall_forall in Hrows. apply Hrows. by eapply list_elem_of_lookup_2. }
    by do 9 (destruct record as [|? record]; try discriminate Hlen).
  - rewrite (two_records _ Hbad), V1_fetchLoop_malformed by done.
    split; [|done]. split.
    + by intros (halts & [=]).
    + intros Hrows. apply Exists_exists in Hbad as (record & Hin & Hlen).
      rewrite Forall_forall in Hrows. by destruct Hlen; apply Hrows.
Qed.

Lemma V1_fetch_returns_rows_verbatim_witness :
  ∃ halt,
    [V1.haltOf Scenario.aaplRow] !! 0%nat = Some halt
    ∧ [V1.HaltDate halt; V1.HaltTime halt; V1.Symbol halt; V1.Name halt;
       V1.Exchange halt; V1.Reason halt; V1.ResumeDate halt; V1.NYSETime halt]
      = Scenario.aaplRow.
Proof.
  destruct (proj2 (V1_fetch_returns_rows_verbatim
                     [Scenario.headerRow; Scenario.aaplRow] None)
              [V1.haltOf Scenario.aaplRow] eq_refl) as [_ Hrows].
  exact (Hrows 0%nat Scenario.aaplRow eq_refl).
Defined.

(** ** Further properties of the fetch and of the watch loop *)

(** X12. The last revision returns from [fetchTradeHalts] exactly when the
    revision before it does and the Last-Modified header parses; it then
    returns the same records and has logged the same lines. *)
Theorem V3_fetch_returns_iff `{!GoRuntime} (get : GetResult) (logs : logbook)
    (halts : list TradeHalt) (lastModified : Time) :
  V3.fetchTradeHalts get = (logs, Return (halts, lastModified))
  ↔ V2.fetchTradeHalts get = (logs, Return halts)
    ∧ ∃ resp, get = GetOk resp
              ∧ Parse RFC1123 (Header_Get_LastModified resp) = (lastModified, None).
Proof.
  unfold V3.fetchTradeHalts, V2.fetchTradeHalts.
  destruct get as [err|resp].
  { split; [done|]. by intros [[=] _]. }
  destruct (negb (StatusCode resp =? StatusOK)%Z).
  { split; [done|]. by intros [[=] _]. }
  destruct (parseTradeHalts (Body resp)) as [logs' [halts'|err|msg]].
  - destruct (Parse RFC1123 (Header_Get_LastModified resp)) as [t [err|]] eqn:Hparse.
    + split; [done|]. intros [_ (resp' & [= <-] & Hparse')]. congruence.
    + split.
      * intros [= -> -> ->]. split; [done|]. by exists resp.
      * intros [[= -> ->] (resp' & [= <-] & Hparse')]. congruence.
  - split; [done|]. by intros [[=] _].
  - split; [done|]. by intros [[=] _].
Qed.

(** X14. What the watch loop holds after its first iterations is what one
    pass of the differ over all the fetched records, in order, leaves; and
    the loop is still running exactly when every fetch returned. *)
Theorem watch_loop_is_one_pass `{!GoRuntime} (prevHalts : gmap string TradeHalt)
    (ticks : list (GetResult * Time)) :
  V3.watchLoop prevHalts ticks
  = (λ fetched, (diffHalts prevHalts (concat fetched)).1)
      <$> mapM (λ tick, fetchedHalts tick.1) ticks.
Proof.
  revert prevHalts. induction ticks as [|[get now] ticks IH]; intros m; [done|].
  cbn [V3.watchLoop mapM fst]. unfold V3.watchCycle.
  pose proof (eq_refl (fetchedHalts get)) as Hfetched.
  unfold fetchedHalts at 2 in Hfetched.
  destruct (V3.fetchTradeHalts get) as [logs [[halts t]|err|msg]];
    rewrite Hfetched; [|done..].
  destruct (diffHalts m halts) as [m1 a] eqn:Hpass. rewrite IH.
  destruct (mapM _ ticks) as [fetched|]; [|done]. simpl. f_equal.
  unfold diffHalts in *. rewrite foldl_app, Hpass.
  by rewrite (foldl_diffStep_flag m1 a).
Qed.

Section InitialMapFacts.
Context `{!GoRuntime}.

(** The map of the initial fetch, symbol by symbol. *)
Lemma initialMap_lookup (l : list TradeHalt) (s : string) :
  V2.initialMap l !! s = lastOf s None l.
Proof.
  unfold V2.initialMap.
  assert (∀ m : gmap string TradeHalt,
            foldl (λ prevHalts halt, <[Symbol halt := halt]> prevHalts) m l !! s
            = lastOf s (m !! s) l) as Hfold.
  { unfold lastOf. induction l as [|h l IH]; intros m; [done|]. simpl. rewrite IH. f_equal.
    case_decide as Hs.
    - subst s. by rewrite lookup_insert_eq.
    - by rewrite lookup_insert_ne. }
  by rewrite Hfold, lookup_empty.
Qed.

Lemma lastOf_resume (s : string) (o : option TradeHalt) (l : list TradeHalt) :
  ResumeDateTime <$> lastOf s o l = lastResume s (ResumeDateTime <$> o) l.
Proof.
  unfold lastOf, lastResume. revert o. induction l as [|h l IH]; intros o; [done|].
  simpl. rewrite IH. by case_decide.
Qed.

Lemma lastOf_last (s : string) (o : option TradeHalt) (l1 l2 : list TradeHalt)
    (r : TradeHalt) :
  Symbol r = s → (∀ x, x ∈ l2 → Symbol x ≠ s) → lastOf s o (l1 ++ r :: l2) = Some r.
Proof.
  intros Hs Hnone. unfold lastOf. rewrite foldl_app. simpl. rewrite decide_True by done.
  induction l2 as [|x l2 IH]; [done|]. simpl.
  rewrite decide_False by (apply Hnone; by left).
  apply IH. intros y Hy. apply Hnone. by right.
Qed.

Lemma lastOf_absent (s : string) (o : option TradeHalt) (l : list TradeHalt) :
  (∀ x, x ∈ l → Symbol x ≠ s) → lastOf s o l = o.
Proof.
  unfold lastOf. revert o. induction l as [|x l IH]; intros o Hnone; [done|]. simpl.
  rewrite decide_False by (apply Hnone; by left).
  apply IH. intros y Hy. apply Hnone. by right.
Qed.

(** Against a map that holds, for every symbol of the slice, the resume
    time of the last record of the slice with that symbol, a pass is quiet
    exactly on a consistent slice. *)
Lemma quiet_against_last_resume (m : gmap string TradeHalt) (l : list TradeHalt)
    (t0 : string → option Time) :
  (∀ s, ResumeDateTime <$> m !! s = lastResume s (t0 s) l) →
  Forall (quiet m) l ↔ consistent l.
Proof.
  intros Hlast. rewrite Forall_forall. unfold consistent. split.
  - intros Hquiet h1 h2 H1 H2 Hs.
    destruct (Hquiet h1 H1) as (p1 & Hp1 & Hr1).
    destruct (Hquiet h2 H2) as (p2 & Hp2 & Hr2).
    rewrite Hs in Hp1. congruence.
  - intros Hcons h Hh. specialize (Hlast (Symbol h)).
    destruct (lastResume_cases (Symbol h) (t0 (Symbol h)) l)
      as [[_ Hnone]|(r & Hr & Hrs & Heq)]; [by destruct (Hnone h Hh)|].
    rewrite Heq in Hlast. destruct (m !! Symbol h) as [p|] eqn:Hp; [|done].
    injection Hlast as Hlast. exists p. split; [done|].
    rewrite Hlast. by apply Hcons.
Qed.

End InitialMapFacts.

(** X17. The map built from the initial fetch maps each symbol of the slice
    to the last record of the slice with that symbol, and nothing else. *)
Theorem initial_map_last_wins `{!GoRuntime} (before after : list TradeHalt)
    (halt : TradeHalt) :
  (∀ r, r ∈ after → Symbol r ≠ Symbol halt) →
  V2.initialMap (before ++ halt :: after) !! Symbol halt = Some halt
  ∧ ∀ s, (∀ r, r ∈ before ++ halt :: after → Symbol r ≠ s) →
         V2.initialMap (before ++ halt :: after) !! s = None.
Proof.
  intros Hlast. rewrite initialMap_lookup. split; [by apply lastOf_last|].
  intros s Hnone. rewrite initialMap_lookup. by apply lastOf_absent.
Qed.

(** Two records of AAPL: the second is the one stored. *)
Lemma initial_map_last_wins_witness :
  V2.initialMap ([Scenario.aaplResumed] ++ Scenario.aaplAgain :: []) !! "AAPL"
  = Some Scenario.aaplAgain.
Proof.
  apply (@initial_map_last_wins Reference.runtime [Scenario.aaplResumed] []
           Scenario.aaplAgain).
  intros r Hr. by apply elem_of_nil in Hr.
Defined.

(** X18. Right after the initial fetch, an iteration that fetches the same
    slice again is quiet exactly when the records of the slice that share a
    symbol share the resume time. *)
Theorem first_iteration_after_initial_fetch `{!GoRuntime}
    (initialHalts : list TradeHalt) :
  (diffHalts (V2.initialMap initialHalts) initialHalts).2 = false
  ↔ ∀ h1 h2, h1 ∈ initialHalts → h2 ∈ initialHalts → Symbol h1 = Symbol h2 →
             ResumeDateTime h1 = ResumeDateTime h2.
Proof.
  rewrite diffHalts_false_iff.
  apply (quiet_against_last_resume _ _ (λ _, None)).
  intros s. by rewrite initialMap_lookup, lastOf_resume.
Qed.

(** ** Further properties of the differ of [src/main.go] *)

#[local] Arguments V1.diffStep : simpl never.

Lemma V1_foldl_set (X : gset string) (a : bool) (l : list V1.TradeHalt) :
  (foldl V1.diffStep (X, a) l).1 = X ∪ list_to_set (V1.Symbol <$> l).
Proof.
  revert X a. induction l as [|h l IH]; intros X a; simpl.
  - by rewrite (right_id_L ∅ (∪)).
  - destruct (V1_diffStep_cases X a h) as [[Hin ->]|[_ ->]]; rewrite IH.
    + set_solver.
    + set_solver.
Qed.

(** X19. In [src/main.go] a pass leaves the set of the symbols it had and
    those of the current slice, and raises [newHalts] if and only if some
    record of the slice has a symbol outside the set it started from: the
    other fields of a record, its resume date included, play no part. *)
Theorem V1_differ_result (lastHalts : gset string) (currentHalts : list V1.TradeHalt) :
  (V1.diffHalts lastHalts currentHalts).1
  = lastHalts ∪ list_to_set (V1.Symbol <$> currentHalts)
  ∧ ((V1.diffHalts lastHalts currentHalts).2 = true
     ↔ ∃ halt, halt ∈ currentHalts ∧ V1.Symbol halt ∉ lastHalts).
Proof.
  split; [apply V1_foldl_set|]. unfold V1.diffHalts. split.
  - intros Hflag.
    destruct (Forall_Exists_dec (λ h, V1.Symbol h ∈ lastHalts)
                (λ h, V1.Symbol h ∉ lastHalts)
                (λ h, decide (V1.Symbol h ∈ lastHalts)) currentHalts) as [Hall|Hnew].
    + exfalso. clear -Hflag Hall. revert Hflag.
      assert (foldl V1.diffStep (lastHalts, false) currentHalts = (lastHalts, false)) as ->;
        [|done].
      induction Hall as [|h l Hh _ IH]; [done|]. simpl.
      destruct (V1_diffStep_cases lastHalts false h) as [[_ ->]|[Hn _]]; done.
    + apply Exists_exists in Hnew. done.
  - intros (halt & Hin & Hnew).
    destruct (foldl V1.diffStep (lastHalts, false) currentHalts).2 eqn:Hflag; [done|].
    apply V1_foldl_false in Hflag as [_ Hall].
    rewrite Forall_forall in Hall. by destruct Hnew; apply Hall.
Qed.

(** X20. In [src/main.go] a second pass over the same slice never raises
    [newHalts] and leaves the set as it is, also when the slice lists a
    symbol several times. *)
Theorem V1_second_pass_never_rings (lastHalts : gset string)
    (currentHalts : list V1.TradeHalt) :
  V1.diffHalts (V1.diffHalts lastHalts currentHalts).1 currentHalts
  = ((V1.diffHalts lastHalts currentHalts).1, false).
Proof.
  apply injective_projections; simpl; [|apply V1_diffHalts_twice].
  unfold V1.diffHalts. rewrite !V1_foldl_set. set_solver.
Qed.
